(** * StelSocial: a shallow embedding of [app.py]

    The Flask application keeps all of its state in a relational store that
    is reached through SQLAlchemy.  Each table is modelled as the list of
    its rows in insertion order, each model class as a record, and each
    route as a function from the request (session, URL arguments, form
    fields, the store's clock) and the store to the new store, the new
    session, the flashed messages and the response.

    Requests are handled one after the other: the embedding is sequential. *)

From Stdlib Require Import ZArith List String Ascii Bool Lia.
From Stdlib Require Import Sorting.Sorted Sorting.Permutation.
Import ListNotations.

#[local] Open Scope string_scope.
#[local] Open Scope list_scope.
#[local] Open Scope Z_scope.

(** ** Models *)

Module Model.

(** [class User(db.Model)].  [bio] and [profile_picture] are nullable. *)
Record User : Type := mkUser
  { user_id_of : Z
  ; username : string
  ; password_hash : string
  ; bio : option string
  ; profile_picture : option string }.

(** [class Post(db.Model)].  [caption] is nullable. *)
Record Post : Type := mkPost
  { post_id_of : Z
  ; image_url : string
  ; caption : option string
  ; post_user_id : Z
  ; post_created_at : Z }.

(** [class Comment(db.Model)]. *)
Record Comment : Type := mkComment
  { comment_id_of : Z
  ; comment_text : string
  ; comment_user_id : Z
  ; comment_post_id : Z
  ; comment_created_at : Z }.

(** [class Like(db.Model)]. *)
Record Like : Type := mkLike
  { like_id_of : Z
  ; like_user_id : Z
  ; like_post_id : Z
  ; like_created_at : Z }.

(** [class Follow(db.Model)]: the key is the ordered pair. *)
Record Follow : Type := mkFollow
  { follower_id : Z
  ; followed_id : Z
  ; follow_timestamp : Z }.

(** [class Conversation(db.Model)]. *)
Record Conversation : Type := mkConversation
  { conversation_id_of : Z
  ; user1_id : Z
  ; user2_id : Z }.

(** [class Message(db.Model)]. *)
Record Message : Type := mkMessage
  { message_id_of : Z
  ; message_conversation_id : Z
  ; message_sender_id : Z
  ; message_text : string
  ; message_created_at : Z }.

(** The store: one list of rows per table, and the next value of each
    integer primary key (the keys are assigned by the store when a row
    is inserted). *)
Record Db : Type := mkDb
  { users : list User
  ; posts : list Post
  ; comments : list Comment
  ; likes : list Like
  ; follows : list Follow
  ; conversations : list Conversation
  ; messages : list Message
  ; next_user : Z
  ; next_post : Z
  ; next_comment : Z
  ; next_like : Z
  ; next_conversation : Z
  ; next_message : Z }.

(** The store after [db.create_all()]. *)
Definition empty_db : Db :=
  mkDb [] [] [] [] [] [] [] 1 1 1 1 1 1.

Definition option_string_eqb (a b : option string) : bool :=
  match a, b with
  | None, None => true
  | Some x, Some y => String.eqb x y
  | _, _ => false
  end.

(** Equality of two rows of [post], column by column. *)
Definition Post_eqb (p q : Post) : bool :=
  (post_id_of p =? post_id_of q)
  && String.eqb (image_url p) (image_url q)
  && option_string_eqb (caption p) (caption q)
  && (post_user_id p =? post_user_id q)
  && (post_created_at p =? post_created_at q).

End Model.

(** ** The query layer

    What the routes use of SQLAlchemy and Flask-SQLAlchemy: look-ups,
    [first()], [order_by], [paginate], [ilike] and deletion by primary
    key.  A table is scanned in insertion order. *)

Module Query.
Import Model.

(** [User.query.get(user_id)]. *)
Definition User_get (db : Db) (uid : Z) : option User :=
  find (fun u => user_id_of u =? uid) (users db).

(** [User.query.filter_by(username=username).first()]. *)
Definition User_by_username (db : Db) (name : string) : option User :=
  find (fun u => String.eqb (username u) name) (users db).

(** [Post.query.get(post_id)]. *)
Definition Post_get (db : Db) (pid : Z) : option Post :=
  find (fun p => post_id_of p =? pid) (posts db).

(** [order_by]: an insertion sort; [before x y] says that [x] may stand
    in front of [y].  Rows with equal keys keep their table order (SQL
    leaves that order open; no theorem below depends on it). *)
Fixpoint insert_by {A : Type} (before : A -> A -> bool) (x : A)
    (l : list A) : list A :=
  match l with
  | [] => [x]
  | y :: l' => if before x y then x :: l else y :: insert_by before x l'
  end.

Definition order_by {A : Type} (before : A -> A -> bool) (l : list A)
    : list A :=
  fold_right (insert_by before) [] l.

(** [Post.created_at.desc()]. *)
Definition created_at_desc (p q : Post) : bool :=
  post_created_at q <=? post_created_at p.

(** [Message.created_at] (ascending). *)
Definition message_created_at_asc (m n : Message) : bool :=
  message_created_at m <=? message_created_at n.

(** The object [paginate] returns. *)
Record Pagination : Type := mkPagination
  { pg_page : Z
  ; pg_per_page : Z
  ; pg_total : Z
  ; pg_items : list Post }.

(** [query.paginate(page=page, per_page=per_page, error_out=False)]:
    a page below 1 is read as page 1, and the items are the rows from
    offset [(page - 1) * per_page], at most [per_page] of them. *)
Definition paginate (rows : list Post) (page per_page : Z) : Pagination :=
  let page := if page <? 1 then 1 else page in
  let offset := Z.to_nat ((page - 1) * per_page) in
  mkPagination page per_page (Z.of_nat (List.length rows))
    (firstn (Z.to_nat per_page) (skipn offset rows)).

(** Case folding of [ilike], on the letters A to Z. *)
Definition lower (c : ascii) : ascii :=
  let n := nat_of_ascii c in
  if ((65 <=? n) && (n <=? 90))%nat then ascii_of_nat (n + 32) else c.

(** SQL [LIKE]: [%] stands for any run of characters, [_] for any one
    character, every other character for itself.  The escape character,
    which differs from store to store, is not modelled: the theorems on
    [search] take a query without the backslash. *)
Fixpoint like_match (pat s : list ascii) : bool :=
  match pat with
  | [] => match s with [] => true | _ :: _ => false end
  | c :: pat' =>
      if Ascii.eqb c "%"%char then
        (fix any_run (s : list ascii) : bool :=
           like_match pat' s
           || match s with [] => false | _ :: s' => any_run s' end) s
      else if Ascii.eqb c "_"%char then
        match s with [] => false | _ :: s' => like_match pat' s' end
      else
        match s with
        | [] => false
        | d :: s' => Ascii.eqb c d && like_match pat' s'
        end
  end.

(** [column.ilike(pattern)] on a value that is not NULL. *)
Definition ilike (value pattern : string) : bool :=
  like_match (map lower (list_ascii_of_string pattern))
             (map lower (list_ascii_of_string value)).

(** [column.ilike(pattern)] on a nullable column: NULL matches nothing. *)
Definition ilike_null (value : option string) (pattern : string) : bool :=
  match value with
  | None => false
  | Some v => ilike v pattern
  end.

(** [db.session.delete(row)] for each of [victims], then [commit]: the
    rows are deleted by primary key. *)
Definition delete_by_key {A : Type} (key : A -> Z) (victims rows : list A)
    : list A :=
  filter (fun r => negb (existsb (fun v => key r =? key v) victims)) rows.

End Query.

(** ** Sessions, flashed messages and responses *)

Module Http.
Import Model Query.

(** The two keys the application keeps in Flask's [session]. *)
Record Session : Type := mkSession
  { s_user_id : option Z
  ; s_username : option string }.

Definition anonymous : Session := mkSession None None.

(** [flash(message, category)]. *)
Definition Flash : Type := (string * string)%type.

(** The targets of [url_for]. *)
Inductive Endpoint : Type :=
| ep_login
| ep_index
| ep_profile (username : string)
| ep_conversation (other_user_id : Z).

(** What a route returns: a redirect, a rendered template with the values
    handed to it, a 404 ([get_or_404], [first_or_404]), or the 500 of an
    exception that no route catches. *)
Inductive Response : Type :=
| redirect (target : Endpoint)
| render_index (posts : list Post) (current_user : option User)
    (pagination : option Pagination)
| render_register
| render_login
| render_create_post
| render_profile (user : User) (posts : list Post)
    (current_user : option User)
| render_edit_profile (user : option User)
| render_edit_post (post : Post)
| render_search_results (query : string) (users : list User)
    (posts : list Post) (current_user : option User)
| render_messages (conversations : list (Conversation * option User))
| render_conversation (conversation : Conversation) (other_user : User)
    (messages : list (Message * string)) (current_user_id : Z)
| abort_404
| server_error.

Record Result : Type := mkResult
  { r_db : Db
  ; r_session : Session
  ; r_flash : list Flash
  ; r_resp : Response }.

End Http.

(** ** The application *)

Module App.
Import Model Query Http.

(** Python's [not s] on a string: true for the empty string only. *)
Definition is_empty (s : string) : bool :=
  match s with
  | EmptyString => true
  | String _ _ => false
  end.

(** *** Writes to the store ([db.session.add] followed by [commit]) *)

Definition add_user (u : User) (db : Db) : Db :=
  mkDb (users db ++ [u]) (posts db) (comments db) (likes db) (follows db)
    (conversations db) (messages db) (next_user db + 1) (next_post db)
    (next_comment db) (next_like db) (next_conversation db)
    (next_message db).

Definition add_post (p : Post) (db : Db) : Db :=
  mkDb (users db) (posts db ++ [p]) (comments db) (likes db) (follows db)
    (conversations db) (messages db) (next_user db) (next_post db + 1)
    (next_comment db) (next_like db) (next_conversation db)
    (next_message db).

Definition add_comment_row (c : Comment) (db : Db) : Db :=
  mkDb (users db) (posts db) (comments db ++ [c]) (likes db) (follows db)
    (conversations db) (messages db) (next_user db) (next_post db)
    (next_comment db + 1) (next_like db) (next_conversation db)
    (next_message db).

Definition add_like (l : Like) (db : Db) : Db :=
  mkDb (users db) (posts db) (comments db) (likes db ++ [l]) (follows db)
    (conversations db) (messages db) (next_user db) (next_post db)
    (next_comment db) (next_like db + 1) (next_conversation db)
    (next_message db).

Definition add_conversation (c : Conversation) (db : Db) : Db :=
  mkDb (users db) (posts db) (comments db) (likes db) (follows db)
    (conversations db ++ [c]) (messages db) (next_user db) (next_post db)
    (next_comment db) (next_like db) (next_conversation db + 1)
    (next_message db).

Definition add_message (m : Message) (db : Db) : Db :=
  mkDb (users db) (posts db) (comments db) (likes db) (follows db)
    (conversations db) (messages db ++ [m]) (next_user db) (next_post db)
    (next_comment db) (next_like db) (next_conversation db)
    (next_message db + 1).

Definition set_users (us : list User) (db : Db) : Db :=
  mkDb us (posts db) (comments db) (likes db) (follows db)
    (conversations db) (messages db) (next_user db) (next_post db)
    (next_comment db) (next_like db) (next_conversation db)
    (next_message db).

Definition set_posts (ps : list Post) (db : Db) : Db :=
  mkDb (users db) ps (comments db) (likes db) (follows db)
    (conversations db) (messages db) (next_user db) (next_post db)
    (next_comment db) (next_like db) (next_conversation db)
    (next_message db).

Definition set_comments (cs : list Comment) (db : Db) : Db :=
  mkDb (users db) (posts db) cs (likes db) (follows db)
    (conversations db) (messages db) (next_user db) (next_post db)
    (next_comment db) (next_like db) (next_conversation db)
    (next_message db).

Definition set_likes (ls : list Like) (db : Db) : Db :=
  mkDb (users db) (posts db) (comments db) ls (follows db)
    (conversations db) (messages db) (next_user db) (next_post db)
    (next_comment db) (next_like db) (next_conversation db)
    (next_message db).

Definition set_follows (fs : list Follow) (db : Db) : Db :=
  mkDb (users db) (posts db) (comments db) (likes db) fs
    (conversations db) (messages db) (next_user db) (next_post db)
    (next_comment db) (next_like db) (next_conversation db)
    (next_message db).

(** *** Methods of [User] *)

(** The row [self.followed.filter_by(followed_id=user.id).first()]. *)
Definition followed_edge (db : Db) (self user : User) : option Follow :=
  find (fun f => (follower_id f =? user_id_of self)
                 && (followed_id f =? user_id_of user)) (follows db).

(** [User.is_following]. *)
Definition is_following (db : Db) (self user : User) : bool :=
  match followed_edge db self user with
  | Some _ => true
  | None => false
  end.

(** [User.follow]; [now] is the store's clock, the default of
    [Follow.timestamp]. *)
Definition follow (now : Z) (self user : User) (db : Db) : Db :=
  if negb (is_following db self user) then
    set_follows
      (follows db ++ [mkFollow (user_id_of self) (user_id_of user) now]) db
  else db.

(** [User.unfollow]: the row found is deleted by its key, the pair. *)
Definition unfollow (self user : User) (db : Db) : Db :=
  match followed_edge db self user with
  | Some f =>
      set_follows
        (filter (fun e => negb ((follower_id e =? follower_id f)
                                && (followed_id e =? followed_id f)))
                (follows db)) db
  | None => db
  end.

(** SQL [UNION]: equal rows are kept once. *)
Fixpoint union_distinct (rows : list Post) : list Post :=
  match rows with
  | [] => []
  | p :: rows' =>
      if existsb (Post_eqb p) rows' then union_distinct rows'
      else p :: union_distinct rows'
  end.

(** [User.get_followed_posts]: the join of [post] with [follow] on
    [Follow.followed_id == Post.user_id], filtered on the follower, in
    union with the user's own posts, newest first. *)
Definition get_followed_posts (db : Db) (self : User) : list Post :=
  let followed :=
    flat_map (fun p =>
      flat_map (fun f =>
        if (followed_id f =? post_user_id p)
           && (follower_id f =? user_id_of self)
        then [p] else []) (follows db)) (posts db) in
  let own := filter (fun p => post_user_id p =? user_id_of self) (posts db) in
  order_by created_at_desc (union_distinct (followed ++ own)).

End App.

(** ** Routes

    A route takes the session of the request, the arguments of its URL
    and, for a POST, the fields of the form it reads (a POST brings all
    of them); a route that writes a timestamp takes the time [now] of the
    store's clock. *)

Module Routes.
Import Model Query Http App.

Section Werkzeug.

(** [werkzeug.security]: the hash of a password under a salt (werkzeug
    draws the salt; here the request brings it), and the check of a
    password against a stored hash. *)
Variable generate_password_hash : string -> string -> string.
Variable check_password_hash : string -> string -> bool.

(** [User.check_password]. *)
Definition check_password (user : User) (password : string) : bool :=
  check_password_hash (password_hash user) password.

(** [load_logged_in_user]: the value of [g.user]. *)
Definition load_logged_in_user (db : Db) (s : Session) : option User :=
  match s_user_id s with
  | None => None
  | Some user_id => User_get db user_id
  end.

(** [index], routes [/] and [/page/<int:page>]. *)
Definition index (s : Session) (page : Z) (db : Db) : Result :=
  match s_user_id s with
  | None => mkResult db s [] (redirect ep_login)
  | Some _ =>
      let per_page := 10 in
      let posts_pagination :=
        paginate (order_by created_at_desc (posts db)) page per_page in
      mkResult db s []
        (render_index (pg_items posts_pagination)
           (load_logged_in_user db s) (Some posts_pagination))
  end.

(** [register]; [form] is [None] for a GET and the fields [username]
    and [password] for a POST. *)
Definition register (salt : string) (s : Session)
    (form : option (string * string)) (db : Db) : Result :=
  match form with
  | Some (username, password) =>
      match User_by_username db username with
      | Some _ =>
          mkResult db s
            [("Username already exists. Please choose a different one.",
              "danger")]
            render_register
      | None =>
          let new_user :=
            mkUser (next_user db) username
              (generate_password_hash salt password) None
              (Some "/static/images/default_profile.png") in
          mkResult (add_user new_user db) s
            [("Registration successful! Please log in.", "success")]
            (redirect ep_login)
      end
  | None => mkResult db s [] render_register
  end.

(** [login]; [form] holds [username] and [password]. *)
Definition login (s : Session) (form : option (string * string))
    (db : Db) : Result :=
  match form with
  | Some (username, password) =>
      let user := User_by_username db username in
      match user with
      | Some u =>
          if check_password u password then
            mkResult db
              (mkSession (Some (user_id_of u)) (Some (Model.username u)))
              [("Logged in successfully!", "success")]
              (redirect ep_index)
          else
            mkResult db s [("Invalid username or password.", "danger")]
              render_login
      | None =>
          mkResult db s [("Invalid username or password.", "danger")]
            render_login
      end
  | None => mkResult db s [] render_login
  end.

(** [logout]. *)
Definition logout (s : Session) (db : Db) : Result :=
  mkResult db anonymous [("You have been logged out.", "info")]
    (redirect ep_login).

(** [create_post]; [form] holds [image_url] and [caption]. *)
Definition create_post (now : Z) (s : Session)
    (form : option (string * string)) (db : Db) : Result :=
  match s_user_id s with
  | None =>
      mkResult db s [("Please log in to create a post.", "warning")]
        (redirect ep_login)
  | Some user_id =>
      match form with
      | Some (image_url, caption) =>
          let new_post :=
            mkPost (next_post db) image_url (Some caption) user_id now in
          mkResult (add_post new_post db) s
            [("Post created successfully!", "success")]
            (redirect ep_index)
      | None => mkResult db s [] render_create_post
      end
  end.

(** [profile]. *)
Definition profile (s : Session) (username : string) (db : Db) : Result :=
  match User_by_username db username with
  | None => mkResult db s [] abort_404
  | Some user =>
      let posts :=
        order_by created_at_desc
          (filter (fun p => post_user_id p =? user_id_of user)
             (posts db)) in
      mkResult db s []
        (render_profile user posts (load_logged_in_user db s))
  end.

(** [follow_user].  When [g.user] is [None] the call [g.user.follow]
    raises. *)
Definition follow_user (now : Z) (s : Session) (username : string)
    (db : Db) : Result :=
  match s_user_id s with
  | None =>
      mkResult db s [("Please log in to follow users.", "warning")]
        (redirect ep_login)
  | Some user_id =>
      match User_by_username db username with
      | None => mkResult db s [] abort_404
      | Some user_to_follow =>
          if user_id_of user_to_follow =? user_id then
            mkResult db s [("You cannot follow yourself!", "danger")]
              (redirect (ep_profile username))
          else
            match load_logged_in_user db s with
            | None => mkResult db s [] server_error
            | Some g_user =>
                mkResult (follow now g_user user_to_follow db) s
                  [(("You are now following " ++ username ++ "!")%string,
                    "success")]
                  (redirect (ep_profile username))
            end
      end
  end.

(** [unfollow_user]. *)
Definition unfollow_user (s : Session) (username : string) (db : Db)
    : Result :=
  match s_user_id s with
  | None =>
      mkResult db s [("Please log in to unfollow users.", "warning")]
        (redirect ep_login)
  | Some user_id =>
      match User_by_username db username with
      | None => mkResult db s [] abort_404
      | Some user_to_unfollow =>
          if user_id_of user_to_unfollow =? user_id then
            mkResult db s [("You cannot unfollow yourself!", "danger")]
              (redirect (ep_profile username))
          else
            match load_logged_in_user db s with
            | None => mkResult db s [] server_error
            | Some g_user =>
                mkResult (unfollow g_user user_to_unfollow db) s
                  [(("You have unfollowed " ++ username ++ ".")%string, "info")]
                  (redirect (ep_profile username))
            end
      end
  end.

(** The UPDATE that [edit_profile] commits for the row of [user]. *)
Definition update_profile (user : User) (bio : string)
    (new_profile_picture : string) (db : Db) : Db :=
  set_users
    (map (fun u =>
            if user_id_of u =? user_id_of user then
              mkUser (user_id_of u) (username u) (password_hash u)
                (Some bio)
                (if is_empty new_profile_picture then profile_picture u
                 else Some new_profile_picture)
            else u) (users db)) db.

(** [edit_profile]; [form] holds [bio] and [profile_picture]. *)
Definition edit_profile (s : Session) (form : option (string * string))
    (db : Db) : Result :=
  match s_user_id s with
  | None =>
      mkResult db s [("Please log in to edit your profile.", "warning")]
        (redirect ep_login)
  | Some _ =>
      let user := load_logged_in_user db s in
      match form with
      | Some (bio, new_profile_picture) =>
          match user with
          | None => mkResult db s [] server_error
          | Some user =>
              mkResult (update_profile user bio new_profile_picture db) s
                [("Profile updated successfully!", "success")]
                (redirect (ep_profile (username user)))
          end
      | None => mkResult db s [] (render_edit_profile user)
      end
  end.

(** [edit_post]; [form] holds [image_url] and [caption].  The redirect
    reads [session['username']] after the commit. *)
Definition edit_post (s : Session) (post_id : Z)
    (form : option (string * string)) (db : Db) : Result :=
  match s_user_id s with
  | None =>
      mkResult db s [("Please log in to edit posts.", "warning")]
        (redirect ep_login)
  | Some user_id =>
      match Post_get db post_id with
      | None => mkResult db s [] abort_404
      | Some post =>
          if negb (post_user_id post =? user_id) then
            mkResult db s
              [("You are not authorized to edit this post.", "danger")]
              (redirect ep_index)
          else
            match form with
            | Some (image_url, caption) =>
                let db' :=
                  set_posts
                    (map (fun p =>
                            if post_id_of p =? post_id_of post then
                              mkPost (post_id_of p) image_url
                                (Some caption) (post_user_id p)
                                (post_created_at p)
                            else p) (posts db)) db in
                mkResult db' s
                  [("Post updated successfully!", "success")]
                  match s_username s with
                  | Some username => redirect (ep_profile username)
                  | None => server_error
                  end
            | None => mkResult db s [] (render_edit_post post)
            end
      end
  end.

(** [db.session.delete(post)]: the relationships [Post.comments] and
    [Post.likes] cascade, so the comments and likes of the post are
    deleted with it. *)
Definition delete_post_rows (post : Post) (db : Db) : Db :=
  let post_comments :=
    filter (fun c => comment_post_id c =? post_id_of post)
      (comments db) in
  let post_likes :=
    filter (fun l => like_post_id l =? post_id_of post) (likes db) in
  set_posts (delete_by_key post_id_of [post] (posts db))
    (set_comments (delete_by_key comment_id_of post_comments (comments db))
       (set_likes (delete_by_key like_id_of post_likes (likes db)) db)).

(** [delete_post]. *)
Definition delete_post (s : Session) (post_id : Z) (db : Db) : Result :=
  match s_user_id s with
  | None =>
      mkResult db s [("Please log in to delete posts.", "warning")]
        (redirect ep_login)
  | Some user_id =>
      match Post_get db post_id with
      | None => mkResult db s [] abort_404
      | Some post =>
          if negb (post_user_id post =? user_id) then
            mkResult db s
              [("You are not authorized to delete this post.", "danger")]
              (redirect ep_index)
          else
            mkResult (delete_post_rows post db) s
              [("Post deleted successfully!", "success")]
              match s_username s with
              | Some username => redirect (ep_profile username)
              | None => server_error
              end
      end
  end.

(** [add_comment]; the form field is [comment_text]. *)
Definition add_comment (now : Z) (s : Session) (post_id : Z)
    (comment_text : string) (db : Db) : Result :=
  match s_user_id s with
  | None =>
      mkResult db s [("Please log in to comment.", "warning")]
        (redirect ep_login)
  | Some user_id =>
      match Post_get db post_id with
      | None => mkResult db s [] abort_404
      | Some post =>
          if is_empty comment_text then
            mkResult db s [("Comment cannot be empty.", "danger")]
              (redirect ep_index)
          else
            let new_comment :=
              mkComment (next_comment db) comment_text user_id
                (post_id_of post) now in
            mkResult (add_comment_row new_comment db) s
              [("Comment added successfully!", "success")]
              (redirect ep_index)
      end
  end.

(** [Like.query.filter_by(user_id=user_id, post_id=post.id).first()]. *)
Definition existing_like (db : Db) (user_id post_id : Z) : option Like :=
  find (fun l => (like_user_id l =? user_id)
                 && (like_post_id l =? post_id)) (likes db).

(** [like_post]. *)
Definition like_post (now : Z) (s : Session) (post_id : Z) (db : Db)
    : Result :=
  match s_user_id s with
  | None =>
      mkResult db s [("Please log in to like posts.", "warning")]
        (redirect ep_login)
  | Some user_id =>
      match Post_get db post_id with
      | None => mkResult db s [] abort_404
      | Some post =>
          match existing_like db user_id (post_id_of post) with
          | Some l =>
              mkResult
                (set_likes (delete_by_key like_id_of [l] (likes db)) db)
                s [("Post unliked.", "info")] (redirect ep_index)
          | None =>
              let new_like :=
                mkLike (next_like db) user_id (post_id_of post) now in
              mkResult (add_like new_like db) s
                [("Post liked!", "success")] (redirect ep_index)
          end
      end
  end.

(** [search]; [query_arg] is the URL argument [query], [None] when it
    is absent. *)
Definition search (s : Session) (query_arg : option string) (db : Db)
    : Result :=
  let query := match query_arg with Some q => q | None => "" end in
  if is_empty query then
    mkResult db s [("Please enter a search query.", "info")]
      (render_index [] (load_logged_in_user db s) None)
  else
    let users :=
      filter (fun u => ilike (username u) ("%" ++ query ++ "%")%string)
        (users db) in
    let posts :=
      order_by created_at_desc
        (filter (fun p => ilike_null (caption p) ("%" ++ query ++ "%")%string)
           (posts db)) in
    mkResult db s []
      (render_search_results query users posts
         (load_logged_in_user db s)).

(** [messages]. *)
Definition messages_view (s : Session) (db : Db) : Result :=
  match s_user_id s with
  | None =>
      mkResult db s [("Please log in to view messages.", "warning")]
        (redirect ep_login)
  | Some user_id =>
      let conversations :=
        filter (fun c => (user1_id c =? user_id)
                         || (user2_id c =? user_id))
          (conversations db) in
      mkResult db s []
        (render_messages
           (map (fun conv =>
                   let other_user_id :=
                     if user1_id conv =? user_id then user2_id conv
                     else user1_id conv in
                   (conv, User_get db other_user_id)) conversations))
  end.

(** The conversation between two users, whichever of them is stored
    as [user1]: the query that opens [conversation]. *)
Definition find_conversation (db : Db) (current_user_id other_user_id : Z)
    : option Conversation :=
  find (fun c => ((user1_id c =? current_user_id)
                  && (user2_id c =? other_user_id))
                 || ((user1_id c =? other_user_id)
                     && (user2_id c =? current_user_id)))
    (conversations db).

(** "Find or create conversation". *)
Definition get_or_create_conversation (db : Db)
    (current_user_id other_user_id : Z) : Db * Conversation :=
  match find_conversation db current_user_id other_user_id with
  | Some conv => (db, conv)
  | None =>
      let conv :=
        mkConversation (next_conversation db) current_user_id
          other_user_id in
      (add_conversation conv db, conv)
  end.

(** "Attach sender username to each message"; [None] when a sender is
    not in [user] (the attribute access on [None] raises). *)
Fixpoint attach_sender_username (db : Db) (ms : list Message)
    : option (list (Message * string)) :=
  match ms with
  | [] => Some []
  | m :: ms' =>
      match User_get db (message_sender_id m) with
      | None => None
      | Some sender =>
          match attach_sender_username db ms' with
          | None => None
          | Some rest => Some ((m, username sender) :: rest)
          end
      end
  end.

(** The end of [conversation]: the messages of the conversation in
    the order of their creation. *)
Definition show_conversation (db : Db) (s : Session) (fl : list Flash)
    (conv : Conversation) (other_user : User) (current_user_id : Z)
    : Result :=
  let messages :=
    order_by message_created_at_asc
      (filter (fun m => message_conversation_id m
                        =? conversation_id_of conv) (messages db)) in
  match attach_sender_username db messages with
  | None => mkResult db s fl server_error
  | Some ms =>
      mkResult db s fl
        (render_conversation conv other_user ms current_user_id)
  end.

(** [conversation]; [form] is [None] for a GET and the field
    [message_text] for a POST. *)
Definition conversation (now : Z) (s : Session) (other_user_id : Z)
    (form : option string) (db : Db) : Result :=
  match s_user_id s with
  | None =>
      mkResult db s [("Please log in to view messages.", "warning")]
        (redirect ep_login)
  | Some current_user_id =>
      match User_get db other_user_id with
      | None => mkResult db s [] abort_404
      | Some other_user =>
          let (db1, conv) :=
            get_or_create_conversation db current_user_id
              other_user_id in
          match form with
          | Some message_text =>
              if is_empty message_text then
                show_conversation db1 s
                  [("Message cannot be empty.", "danger")]
                  conv other_user current_user_id
              else
                let new_message :=
                  mkMessage (next_message db1) (conversation_id_of conv)
                    current_user_id message_text now in
                mkResult (add_message new_message db1) s []
                  (redirect (ep_conversation other_user_id))
          | None =>
              show_conversation db1 s [] conv other_user current_user_id
          end
      end
  end.

(** *** Requests and reachable stores *)

(** One request to the application.  The route [cat_fact] only calls
    an external service and renders its answer; it is left out. *)
Inductive Request : Type :=
| GET_index (page : Z)
| ANY_register (salt : string) (form : option (string * string))
| ANY_login (form : option (string * string))
| GET_logout
| ANY_create_post (form : option (string * string))
| GET_profile (username : string)
| POST_follow (username : string)
| POST_unfollow (username : string)
| ANY_edit_profile (form : option (string * string))
| ANY_edit_post (post_id : Z) (form : option (string * string))
| POST_delete_post (post_id : Z)
| POST_add_comment (post_id : Z) (comment_text : string)
| POST_like_post (post_id : Z)
| GET_search (query : option string)
| GET_messages
| ANY_conversation (other_user_id : Z) (form : option string).

(** The dispatch of a request, at time [now] of the store's clock and
    with the session [s] of its sender. *)
Definition handle (now : Z) (s : Session) (req : Request) (db : Db)
    : Result :=
  match req with
  | GET_index page => index s page db
  | ANY_register salt form => register salt s form db
  | ANY_login form => login s form db
  | GET_logout => logout s db
  | ANY_create_post form => create_post now s form db
  | GET_profile username => profile s username db
  | POST_follow username => follow_user now s username db
  | POST_unfollow username => unfollow_user s username db
  | ANY_edit_profile form => edit_profile s form db
  | ANY_edit_post post_id form => edit_post s post_id form db
  | POST_delete_post post_id => delete_post s post_id db
  | POST_add_comment post_id text => add_comment now s post_id text db
  | POST_like_post post_id => like_post now s post_id db
  | GET_search query => search s query db
  | GET_messages => messages_view s db
  | ANY_conversation other form => conversation now s other form db
  end.

(** The stores the application can reach from the empty one, whatever
    the requests, their sessions and their times. *)
Inductive reachable : Db -> Prop :=
| reachable_empty : reachable empty_db
| reachable_step (db : Db) (now : Z) (s : Session) (req : Request) :
    reachable db -> reachable (r_db (handle now s req db)).

(** A run of the application: the requests of [trace] in order. *)
Fixpoint run (trace : list (Z * Session * Request)) (db : Db) : Db :=
  match trace with
  | [] => db
  | (now, s, req) :: trace' => run trace' (r_db (handle now s req db))
  end.

End Werkzeug.

End Routes.

(** ** Vocabulary of the properties *)

Module Props.
Import Model Query Http App Routes.

(** The posts and the users a response hands to its template. *)
Definition resp_posts (r : Response) : list Post :=
  match r with
  | render_index posts _ _ => posts
  | render_profile _ posts _ => posts
  | render_search_results _ _ posts _ => posts
  | _ => []
  end.


(** The session of a logged-in user, as [login] writes it. *)
Definition session_of (u : User) : Session :=
  mkSession (Some (user_id_of u)) (Some (username u)).

(** The rows of [like] for the pair (user, post). *)
Definition like_rows (db : Db) (user_id post_id : Z) : list Like :=
  filter (fun l => (like_user_id l =? user_id)
                   && (like_post_id l =? post_id)) (likes db).

(** The rows of [follow] for the ordered pair (follower, followed). *)
Definition follow_rows (db : Db) (a b : Z) : list Follow :=
  filter (fun f => (follower_id f =? a) && (followed_id f =? b))
    (follows db).

(** The rows of [conversation] between [a] and [b], in either order. *)
Definition conversation_rows (db : Db) (a b : Z) : list Conversation :=
  filter (fun c => ((user1_id c =? a) && (user2_id c =? b))
                   || ((user1_id c =? b) && (user2_id c =? a)))
    (conversations db).

(** [like_post] on the same post, once for each time of [nows]. *)
Fixpoint toggle_likes (nows : list Z) (s : Session) (post_id : Z)
    (db : Db) : Db :=
  match nows with
  | [] => db
  | now :: nows' =>
      toggle_likes nows' s post_id (r_db (like_post now s post_id db))
  end.

(** [a] follows [b]: there is an edge from [a] to [b]. *)
Definition follows_edge (db : Db) (a b : Z) : Prop :=
  exists f, In f (follows db) /\ follower_id f = a /\ followed_id f = b.

(** Newest first. *)
Definition newest_first (ps : list Post) : Prop :=
  StronglySorted (fun p q => post_created_at q <= post_created_at p) ps.

(** White space, as [str.strip] and [str.isspace] see it on ASCII. *)
Definition is_space (c : ascii) : bool :=
  let n := nat_of_ascii c in
  (((9 <=? n) && (n <=? 13)) || ((28 <=? n) && (n <=? 32)))%nat.

(** The text is empty once its white space is trimmed: it holds white
    space only. *)
Definition blank (text : string) : bool :=
  forallb is_space (list_ascii_of_string text).








(** Page [page] of [rows], ten rows to a page, pages counted from 1. *)
Definition page_of (rows : list Post) (page : Z) : list Post :=
  firstn 10 (skipn (Z.to_nat (10 * (page - 1))) rows).

(** The invariants of the store that the routes maintain. *)
Record well_formed (db : Db) : Prop := mkWellFormed
  { wf_usernames : NoDup (map username (users db))
  ; wf_likes : forall u p, (List.length (like_rows db u p) <= 1)%nat
  ; wf_follows : forall a b, (List.length (follow_rows db a b) <= 1)%nat
  ; wf_no_self_follow :
      forall f, In f (follows db) -> follower_id f <> followed_id f
  ; wf_conversations :
      forall a b, (List.length (conversation_rows db a b) <= 1)%nat }.

(** *** The specification's reading of four operations

    Each is compared below with what the route does. *)

(** [getFeed]: the posts shown to [u] are by [u] or by users [u] follows. *)
Definition feed_of_followed (db : Db) (u : User) (shown : list Post) : Prop :=
  forall p, In p shown ->
    post_user_id p = user_id_of u
    \/ follows_edge db (user_id_of u) (post_user_id p).

(** [sendMessage]: a text that is blank is refused and no message row is
    written. *)
Definition blank_message_refused (now : Z) (s : Session) (other_user_id : Z)
    (text : string) (db : Db) : Prop :=
  blank text = true ->
  let r := conversation now s other_user_id (Some text) db in
  r_flash r = [("Message cannot be empty.", "danger")]
  /\ messages (r_db r) = messages db.

(** [addComment]: a text that is blank is refused and no comment row is
    written. *)
Definition blank_comment_refused (now : Z) (s : Session) (post_id : Z)
    (text : string) (db : Db) : Prop :=
  blank text = true ->
  let r := add_comment now s post_id text db in
  r_flash r = [("Comment cannot be empty.", "danger")]
  /\ comments (r_db r) = comments db.


End Props.

(** ** A small run of the application

    Three users register; bob, carol and alice each publish a post, and
    alice follows carol.  The hash functions stand in for werkzeug's. *)

Module Demo.
Import Model Query Http App Routes Props.

Definition demo_hash (salt password : string) : string :=
  (salt ++ "$" ++ password)%string.

Definition demo_check (pwhash password : string) : bool :=
  String.eqb pwhash (demo_hash "na" password).

Definition default_picture : option string :=
  Some "/static/images/default_profile.png".

Definition alice : User :=
  mkUser 1 "alice" (demo_hash "na" "wonderland") None default_picture.

Definition bob : User :=
  mkUser 2 "bob" (demo_hash "na" "builder") None default_picture.

Definition carol : User :=
  mkUser 3 "carol" (demo_hash "na" "singer") None default_picture.

Definition demo_trace : list (Z * Session * Request) :=
  [ (1, anonymous, ANY_register "na" (Some ("alice", "wonderland")))
  ; (2, anonymous, ANY_register "na" (Some ("bob", "builder")))
  ; (3, anonymous, ANY_register "na" (Some ("carol", "singer")))
  ; (10, session_of bob,
     ANY_create_post (Some ("/img/cat.png", "Cats are great")))
  ; (11, session_of alice, POST_follow "carol")
  ; (12, session_of carol,
     ANY_create_post (Some ("/img/sea.png", "By the sea")))
  ; (13, session_of alice,
     ANY_create_post (Some ("/img/tea.png", "Tea time"))) ].

Definition demo_db : Db := run demo_hash demo_check demo_trace empty_db.

Definition bob_post : Post :=
  mkPost 1 "/img/cat.png" (Some "Cats are great") 2 10.

Definition carol_post : Post :=
  mkPost 2 "/img/sea.png" (Some "By the sea") 3 12.

Definition alice_post : Post :=
  mkPost 3 "/img/tea.png" (Some "Tea time") 1 13.

End Demo.

(** ** Keys, sessions and references

    The vocabulary of the properties of the store as a whole: how a
    request may change a table, the primary keys, the sessions that
    [login] issues, and the foreign keys. *)

Module Integrity.
Import Model Query Http App Routes Props.

(** The four ways in which a request changes a table with an integer
    primary key and the next value of that key: not at all, by deleting
    rows, by updating rows in place without touching their keys, or by
    inserting one row under the next key. *)
Inductive table_step {A : Type} (key : A -> Z) (rows : list A) (next : Z)
    : list A -> Z -> Prop :=
| table_same : table_step key rows next rows next
| table_delete (g : A -> bool) : table_step key rows next (filter g rows) next
| table_update (f : A -> A) :
    (forall r, key (f r) = key r) ->
    table_step key rows next (map f rows) next
| table_insert (r : A) :
    key r = next -> table_step key rows next (rows ++ [r]) (next + 1).

(** The keys of the rows are pairwise distinct and below the next key. *)
Definition fresh_keys {A : Type} (key : A -> Z) (rows : list A) (next : Z)
    : Prop :=
  NoDup (map key rows) /\ forall r, In r rows -> key r < next.

Record keyed (db : Db) : Prop := mkKeyed
  { keyed_users : fresh_keys user_id_of (users db) (next_user db)
  ; keyed_posts : fresh_keys post_id_of (posts db) (next_post db)
  ; keyed_comments :
      fresh_keys comment_id_of (comments db) (next_comment db)
  ; keyed_likes : fresh_keys like_id_of (likes db) (next_like db)
  ; keyed_conversations :
      fresh_keys conversation_id_of (conversations db) (next_conversation db)
  ; keyed_messages :
      fresh_keys message_id_of (messages db) (next_message db) }.

(** A session that the application has issued: empty (never logged in,
    or after [logout]), or written by [login] for a user of the store. *)
Definition authentic (db : Db) (s : Session) : Prop :=
  s = anonymous \/ exists u, In u (users db) /\ s = session_of u.

(** The routes that begin with the test ['user_id' not in session]. *)
Definition protected (req : Request) : bool :=
  match req with
  | ANY_register _ _ | ANY_login _ | GET_logout | GET_profile _
  | GET_search _ => false
  | _ => true
  end.

(** The rows a foreign key may point to. *)
Definition has_user (db : Db) (uid : Z) : Prop :=
  exists u, In u (users db) /\ user_id_of u = uid.

Definition has_post (db : Db) (pid : Z) : Prop :=
  exists p, In p (posts db) /\ post_id_of p = pid.

Definition has_conversation (db : Db) (cid : Z) : Prop :=
  exists c, In c (conversations db) /\ conversation_id_of c = cid.

(** Every foreign key of the models points to a row. *)
Record referential (db : Db) : Prop := mkReferential
  { ref_posts : forall p, In p (posts db) -> has_user db (post_user_id p)
  ; ref_comments :
      forall c, In c (comments db) ->
        has_user db (comment_user_id c) /\ has_post db (comment_post_id c)
  ; ref_likes :
      forall l, In l (likes db) ->
        has_user db (like_user_id l) /\ has_post db (like_post_id l)
  ; ref_follows :
      forall f, In f (follows db) ->
        has_user db (follower_id f) /\ has_user db (followed_id f)
  ; ref_conversations :
      forall c, In c (conversations db) ->
        has_user db (user1_id c) /\ has_user db (user2_id c)
  ; ref_messages :
      forall m, In m (messages db) ->
        has_user db (message_sender_id m)
        /\ has_conversation db (message_conversation_id m) }.

Section Werkzeug.
Variable generate_password_hash : string -> string -> string.
Variable check_password_hash : string -> string -> bool.

(** The stores reached when every request comes with a session that the
    application has issued. *)
Inductive served : Db -> Prop :=
| served_empty : served empty_db
| served_step (db : Db) (now : Z) (s : Session) (req : Request) :
    served db -> authentic db s ->
    served
      (r_db (handle generate_password_hash check_password_hash now s req db)).

End Werkzeug.

(** The messages of a conversation, as [conversation] lists them. *)
Definition conversation_messages (db : Db) (conv : Conversation)
    : list Message :=
  order_by message_created_at_asc
    (filter (fun m => message_conversation_id m =? conversation_id_of conv)
       (messages db)).

(** All the pages of [rows], from page 1 to page [n]. *)
Fixpoint pages_upto (rows : list Post) (n : nat) : list Post :=
  match n with
  | O => []
  | S n' => pages_upto rows n' ++ page_of rows (Z.of_nat n)
  end.

(** The run of [Demo], then a comment and a like of alice on the post of
    bob, and a conversation of alice with bob. *)
Definition busy_db : Db :=
  run Demo.demo_hash Demo.demo_check
    [ (20, session_of Demo.alice, POST_add_comment 1 "Nice cat")
    ; (21, session_of Demo.alice, POST_like_post 1)
    ; (22, session_of Demo.alice, ANY_conversation 2 (Some "Hello bob")) ]
    Demo.demo_db.

(** The run of [busy_db], then more messages: alice and bob write to
    each other, bob's message carrying an earlier time than the one
    stored before it, and carol writes to alice. *)
Definition chat_db : Db :=
  run Demo.demo_hash Demo.demo_check
    [ (30, session_of Demo.alice, ANY_conversation 2 (Some "See you at ten"))
    ; (25, session_of Demo.bob, ANY_conversation 1 (Some "Hello alice"))
    ; (26, session_of Demo.carol, ANY_conversation 1 (Some "Carol here")) ]
    busy_db.

(** The integers of the store: signed, of 64 bits.  A look-up by key, a
    [limit] or an [offset] with an integer outside this range raises in
    the store; [User_get], [Post_get] and [paginate] do not model that
    error, so the theorems on the answer to a request that brings an
    integer of its own take that integer in this range. *)
Definition in_int64 (z : Z) : Prop := - 2 ^ 63 <= z < 2 ^ 63.



(** The two participants of a conversation are [a] and [b], in either
    order. *)
Definition between (c : Conversation) (a b : Z) : Prop :=
  (user1_id c = a /\ user2_id c = b) \/ (user1_id c = b /\ user2_id c = a).

End Integrity.

(** ** Lists, look-ups and sorting *)

Module ListFacts.
Import Model Query.

Lemma find_none_filter {A : Type} (f : A -> bool) (l : list A) :
  find f l = None -> filter f l = [].
Proof.
  induction l as [|x l IH]; simpl; [reflexivity|].
  destruct (f x); [discriminate|exact IH].
Qed.

Lemma filter_nil_find {A : Type} (f : A -> bool) (l : list A) :
  filter f l = [] -> find f l = None.
Proof.
  induction l as [|x l IH]; simpl; [reflexivity|].
  destruct (f x); [discriminate|exact IH].
Qed.

Lemma find_snoc_none {A : Type} (f : A -> bool) (l : list A) (x : A) :
  find f l = None -> find f (l ++ [x]) = if f x then Some x else None.
Proof.
  induction l as [|y l IH]; simpl; [reflexivity|].
  destruct (f y); [discriminate|exact IH].
Qed.

Lemma filter_length_sub {A : Type} (f g : A -> bool) (l : list A) :
  (List.length (filter f (filter g l)) <= List.length (filter f l))%nat.
Proof.
  induction l as [|x l IH]; simpl; [lia|].
  destruct (g x); simpl; destruct (f x); simpl; lia.
Qed.

Lemma filter_length_snoc {A : Type} (f : A -> bool) (l : list A) (x : A) :
  List.length (filter f (l ++ [x]))
  = (List.length (filter f l) + if f x then 1 else 0)%nat.
Proof.
  rewrite filter_app, length_app. simpl. destruct (f x); reflexivity.
Qed.

(** In a list whose keys are pairwise distinct, [find] on a key returns
    the element that carries it. *)
Lemma find_by_unique_key {A : Type} (key : A -> string) (l : list A)
    (x : A) :
  NoDup (map key l) -> In x l ->
  find (fun y => String.eqb (key y) (key x)) l = Some x.
Proof.
  induction l as [|y l IH]; simpl; intros ND Hin; [contradiction|].
  inversion ND as [|k ks Hnot ND']; subst.
  destruct Hin as [->|Hin].
  - now rewrite String.eqb_refl.
  - destruct (String.eqb (key y) (key x)) eqn:E.
    + apply String.eqb_eq in E. exfalso. apply Hnot. rewrite E.
      now apply in_map.
    + now apply IH.
Qed.

(** *** [order_by] sorts and keeps the rows *)

Section Sorting.
Context {A : Type} (before : A -> A -> bool).
Hypothesis before_total :
  forall x y, before x y = false -> before y x = true.
Hypothesis before_trans :
  forall x y z, before x y = true -> before y z = true ->
                before x z = true.

Lemma insert_by_perm (x : A) (l : list A) :
  Permutation (x :: l) (insert_by before x l).
Proof.
  induction l as [|y l IH]; simpl; [reflexivity|].
  destruct (before x y); [reflexivity|].
  rewrite perm_swap. now constructor.
Qed.

Lemma order_by_perm (l : list A) : Permutation l (order_by before l).
Proof.
  induction l as [|x l IH]; simpl; [constructor|].
  rewrite <- insert_by_perm. now constructor.
Qed.

Lemma insert_by_sorted (x : A) (l : list A) :
  StronglySorted (fun a b => before a b = true) l ->
  StronglySorted (fun a b => before a b = true) (insert_by before x l).
Proof.
  induction 1 as [|y l Hs IH Hall]; simpl.
  - repeat constructor.
  - destruct (before x y) eqn:E.
    + constructor; [now constructor|].
      constructor; [exact E|].
      rewrite Forall_forall in *. intros z Hz.
      eapply before_trans; [exact E|auto].
    + constructor; [exact IH|].
      rewrite Forall_forall in *. intros z Hz.
      apply Permutation_in with (l' := x :: l) in Hz;
        [|symmetry; apply insert_by_perm].
      destruct Hz as [<-|Hz]; auto.
Qed.

Lemma order_by_sorted (l : list A) :
  StronglySorted (fun a b => before a b = true) (order_by before l).
Proof.
  induction l as [|x l IH]; simpl; [constructor|].
  now apply insert_by_sorted.
Qed.

Lemma order_by_in (l : list A) (x : A) :
  In x (order_by before l) <-> In x l.
Proof.
  split; apply Permutation_in;
    [symmetry|]; apply order_by_perm.
Qed.

End Sorting.

Lemma created_at_desc_total (p q : Post) :
  created_at_desc p q = false -> created_at_desc q p = true.
Proof. unfold created_at_desc. lia. Qed.

Lemma created_at_desc_trans (p q r : Post) :
  created_at_desc p q = true -> created_at_desc q r = true ->
  created_at_desc p r = true.
Proof. unfold created_at_desc. lia. Qed.

Lemma order_by_newest_first (ps : list Post) :
  StronglySorted (fun p q => post_created_at q <= post_created_at p)
    (order_by created_at_desc ps).
Proof.
  pose proof (order_by_sorted created_at_desc created_at_desc_total
                created_at_desc_trans ps) as H.
  induction H as [|p l Hs IH Hall]; constructor; [exact IH|].
  eapply Forall_impl; [|exact Hall].
  intros q Hq. unfold created_at_desc in Hq. lia.
Qed.

End ListFacts.

(** ** What one request does to each table *)

Module Steps.
Import Model Query Http App Routes Props ListFacts.

(** Case analysis on every [match] of the goal. *)
Ltac crack :=
  repeat match goal with
    | |- context [match ?x with _ => _ end] => destruct x eqn:?
    | H : context [match ?x with _ => _ end] |- _ => destruct x eqn:?
    | H : (_, _) = (_, _) |- _ => inversion H; subst; clear H
    end.

Ltac open_routes :=
  unfold handle, index, register, login, logout, create_post, profile,
    follow_user, unfollow_user, edit_profile, edit_post, delete_post,
    add_comment, like_post, search, messages_view, conversation,
    show_conversation, get_or_create_conversation, follow, unfollow,
    is_following, update_profile, delete_post_rows.

Section Werkzeug.
Variable generate_password_hash : string -> string -> string.
Variable check_password_hash : string -> string -> bool.

#[local] Abbreviation handle :=
  (handle generate_password_hash check_password_hash).

Lemma User_get_id (db : Db) (uid : Z) (u : User) :
  User_get db uid = Some u -> user_id_of u = uid.
Proof.
  unfold User_get. intros H. apply find_some in H. lia.
Qed.

Lemma Post_get_id (db : Db) (pid : Z) (p : Post) :
  Post_get db pid = Some p -> post_id_of p = pid.
Proof.
  unfold Post_get. intros H. apply find_some in H. lia.
Qed.

Lemma users_step (now : Z) (s : Session) (req : Request) (db : Db) :
  let db' := r_db (handle now s req db) in
  users db' = users db
  \/ (exists u, users db' = users db ++ [u]
                /\ User_by_username db (username u) = None)
  \/ (exists f, users db' = map f (users db)
                /\ forall u, username (f u) = username u).
Proof.
  destruct req; open_routes; crack; simpl; auto.
  - right; left. eexists; split; [reflexivity|]. simpl. assumption.
  - right; right. eexists; split; [reflexivity|].
    intros x. simpl. destruct (user_id_of x =? _); reflexivity.
  - right; right. eexists; split; [reflexivity|].
    intros x. simpl. destruct (user_id_of x =? _); reflexivity.
Qed.

Lemma likes_step (now : Z) (s : Session) (req : Request) (db : Db) :
  let db' := r_db (handle now s req db) in
  likes db' = likes db
  \/ (exists g, likes db' = filter g (likes db))
  \/ (exists l, likes db' = likes db ++ [l]
                /\ existing_like db (like_user_id l) (like_post_id l) = None).
Proof.
  destruct req; open_routes; crack; simpl; auto;
    first
      [ solve [right; left; eexists; reflexivity]
      | right; right; eexists; split; [reflexivity|]; simpl; assumption ].
Qed.

Lemma follows_step (now : Z) (s : Session) (req : Request) (db : Db) :
  let db' := r_db (handle now s req db) in
  follows db' = follows db
  \/ (exists g, follows db' = filter g (follows db))
  \/ (exists f, follows db' = follows db ++ [f]
                /\ follow_rows db (follower_id f) (followed_id f) = []
                /\ follower_id f <> followed_id f).
Proof.
  destruct req; open_routes; crack; simpl; auto;
    first
      [ solve [right; left; eexists; reflexivity]
      | right; right; eexists; split; [reflexivity|]; simpl ].
  all: try (simpl in *; discriminate).
  unfold load_logged_in_user in *.
  match goal with H : s_user_id s = Some _ |- _ => rewrite H in * end.
  match goal with H : User_get _ _ = Some _ |- _ =>
    apply User_get_id in H end.
  split; [|lia].
  apply find_none_filter. assumption.
Qed.

Lemma conversations_step (now : Z) (s : Session) (req : Request) (db : Db) :
  let db' := r_db (handle now s req db) in
  conversations db' = conversations db
  \/ (exists c, conversations db' = conversations db ++ [c]
                /\ conversation_rows db (user1_id c) (user2_id c) = []).
Proof.
  destruct req; open_routes; crack; simpl; auto;
    right; eexists; (split; [reflexivity|]); simpl;
    apply find_none_filter; assumption.
Qed.

End Werkzeug.

End Steps.

(** ** The invariants hold in every reachable store *)

Module Invariants.
Import Model Query Http App Routes Props ListFacts Steps.

Lemma conversation_rows_sym (db : Db) (a b : Z) :
  conversation_rows db a b = conversation_rows db b a.
Proof.
  unfold conversation_rows. apply filter_ext. intros c.
  apply orb_comm.
Qed.

Lemma NoDup_usernames_snoc (l : list User) (u : User) :
  NoDup (map username l) ->
  find (fun x => String.eqb (username x) (username u)) l = None ->
  NoDup (map username (l ++ [u])).
Proof.
  intros ND Hnone. rewrite map_app. simpl.
  apply NoDup_app; [exact ND|repeat constructor; intros []|].
  intros k Hk [<-|[]].
  apply in_map_iff in Hk. destruct Hk as (x & Hx & Hin).
  pose proof (find_none _ _ Hnone x Hin) as E. simpl in E.
  rewrite Hx, String.eqb_refl in E. discriminate.
Qed.

Lemma well_formed_empty : well_formed empty_db.
Proof.
  constructor; simpl; intros; try lia; try contradiction. constructor.
Qed.

Section Werkzeug.
Variable generate_password_hash : string -> string -> string.
Variable check_password_hash : string -> string -> bool.

#[local] Abbreviation handle :=
  (handle generate_password_hash check_password_hash).
#[local] Abbreviation reachable :=
  (reachable generate_password_hash check_password_hash).
#[local] Abbreviation run :=
  (run generate_password_hash check_password_hash).

Lemma well_formed_step (now : Z) (s : Session) (req : Request) (db : Db) :
  well_formed db -> well_formed (r_db (handle now s req db)).
Proof.
  intros [Hu Hl Hf Hs Hc]. constructor.
  - destruct (users_step generate_password_hash check_password_hash
                now s req db) as [E|[(u & E & Hnone)|(f & E & Hname)]];
      rewrite E.
    + exact Hu.
    + now apply NoDup_usernames_snoc.
    + rewrite map_map.
      rewrite (map_ext _ username Hname). exact Hu.
  - intros u p. unfold like_rows.
    destruct (likes_step generate_password_hash check_password_hash
                now s req db) as [E|[(g & E)|(l & E & Hnone)]];
      rewrite E.
    + apply Hl.
    + etransitivity; [apply filter_length_sub|apply Hl].
    + rewrite filter_length_snoc.
      destruct ((like_user_id l =? u) && (like_post_id l =? p)) eqn:Em.
      * apply andb_true_iff in Em. destruct Em as [Eu Ep].
        apply Z.eqb_eq in Eu, Ep. subst u p.
        unfold existing_like in Hnone.
        rewrite (find_none_filter _ _ Hnone). simpl. lia.
      * specialize (Hl u p). unfold like_rows in Hl. lia.
  - intros a b. unfold follow_rows.
    destruct (follows_step generate_password_hash check_password_hash
                now s req db) as [E|[(g & E)|(f & E & Hnone & _)]];
      rewrite E.
    + apply Hf.
    + etransitivity; [apply filter_length_sub|apply Hf].
    + rewrite filter_length_snoc.
      destruct ((follower_id f =? a) && (followed_id f =? b)) eqn:Em.
      * apply andb_true_iff in Em. destruct Em as [Ea Eb].
        apply Z.eqb_eq in Ea, Eb. subst a b.
        unfold follow_rows in Hnone. rewrite Hnone. simpl. lia.
      * specialize (Hf a b). unfold follow_rows in Hf. lia.
  - intros f.
    destruct (follows_step generate_password_hash check_password_hash
                now s req db) as [E|[(g & E)|(f' & E & _ & Hne)]];
      rewrite E.
    + apply Hs.
    + intros Hin. apply filter_In in Hin. now apply Hs.
    + intros Hin. apply in_app_or in Hin.
      destruct Hin as [Hin|[<-|[]]]; [now apply Hs|exact Hne].
  - intros a b. unfold conversation_rows.
    destruct (conversations_step generate_password_hash check_password_hash
                now s req db) as [E|(c & E & Hnone)];
      rewrite E.
    + apply Hc.
    + rewrite filter_length_snoc.
      destruct (((user1_id c =? a) && (user2_id c =? b))
                || ((user1_id c =? b) && (user2_id c =? a))) eqn:Em.
      * apply orb_true_iff in Em.
        destruct Em as [Em|Em]; apply andb_true_iff in Em;
          destruct Em as [E1 E2]; apply Z.eqb_eq in E1, E2; subst.
        -- unfold conversation_rows in Hnone. rewrite Hnone. simpl. lia.
        -- rewrite conversation_rows_sym in Hnone.
           unfold conversation_rows in Hnone. rewrite Hnone. simpl. lia.
      * specialize (Hc a b). unfold conversation_rows in Hc. lia.
Qed.

Lemma reachable_well_formed (db : Db) : reachable db -> well_formed db.
Proof.
  induction 1 as [|db now s req _ IH].
  - apply well_formed_empty.
  - now apply well_formed_step.
Qed.

Lemma reachable_run (trace : list (Z * Session * Request)) (db : Db) :
  reachable db -> reachable (run trace db).
Proof.
  revert db. induction trace as [|[[now s] req] trace IH]; simpl; intros db H.
  - exact H.
  - apply IH. now constructor.
Qed.

(** In a reachable store a user is the one [filter_by(username=...)]
    finds under its name. *)
Lemma reachable_user_by_username (db : Db) (u : User) :
  reachable db -> In u (users db) ->
  User_by_username db (username u) = Some u.
Proof.
  intros Hr Hin. unfold User_by_username.
  apply (find_by_unique_key username); [|exact Hin].
  apply wf_usernames. now apply reachable_well_formed.
Qed.

End Werkzeug.

End Invariants.

(** ** Likes *)

Module Likes.
Import Model Query Http App Routes Props Demo ListFacts Steps Invariants.

Lemma filter_comm {A : Type} (f g : A -> bool) (l : list A) :
  filter f (filter g l) = filter g (filter f l).
Proof.
  induction l as [|x l IH]; simpl; [reflexivity|].
  destruct (f x) eqn:Ef, (g x) eqn:Eg; simpl;
    rewrite ?Ef, ?Eg, IH; reflexivity.
Qed.

Lemma like_post_posts (now : Z) (s : Session) (p : Z) (db : Db) :
  posts (r_db (like_post now s p db)) = posts db.
Proof. unfold like_post. crack; reflexivity. Qed.

(** One toggle: no row becomes one row, one row becomes no row. *)
Lemma like_post_flips (now : Z) (s : Session) (u p : Z) (db : Db) :
  s_user_id s = Some u -> Post_get db p <> None ->
  (List.length (like_rows db u p) <= 1)%nat ->
  List.length (like_rows (r_db (like_post now s p db)) u p)
  = (1 - List.length (like_rows db u p))%nat.
Proof.
  intros Hs Hp Hle. unfold like_post. rewrite Hs.
  destruct (Post_get db p) as [post|] eqn:Ep; [|contradiction].
  apply Post_get_id in Ep. rewrite Ep.
  destruct (existing_like db u p) as [l|] eqn:El; simpl.
  - unfold existing_like in El. unfold like_rows in *. simpl.
    unfold delete_by_key. rewrite filter_comm.
    pose proof (find_some _ _ El) as [Hin Hm].
    assert (Hrow : In l (filter (fun l0 => (like_user_id l0 =? u)
                                           && (like_post_id l0 =? p))
                           (likes db)))
      by (apply filter_In; split; assumption).
    destruct (filter _ (likes db)) as [|x [|y rest]]; simpl in *;
      [contradiction| |lia].
    destruct Hrow as [->|[]]. rewrite Z.eqb_refl. reflexivity.
  - unfold existing_like in El. unfold like_rows. simpl.
    rewrite filter_length_snoc. simpl.
    rewrite (find_none_filter _ _ El). rewrite !Z.eqb_refl. reflexivity.
Qed.

Lemma toggle_likes_count (nows : list Z) (s : Session) (u p : Z) (db : Db) :
  s_user_id s = Some u -> Post_get db p <> None ->
  (List.length (like_rows db u p) <= 1)%nat ->
  List.length (like_rows (toggle_likes nows s p db) u p)
  = ((List.length (like_rows db u p) + List.length nows) mod 2)%nat.
Proof.
  intros Hs. revert db.
  induction nows as [|now nows IH]; intros db Hp Hle;
    cbn [toggle_likes List.length].
  - rewrite Nat.add_0_r. symmetry. apply Nat.mod_small. lia.
  - pose proof (like_post_flips now s u p db Hs Hp Hle) as Hflip.
    rewrite IH.
    + rewrite Hflip.
      destruct (List.length (like_rows db u p)) as [|[|n]]; [| |lia].
      * f_equal.
      * replace (1 + S (List.length nows))%nat
          with (List.length nows + 1 * 2)%nat by lia.
        rewrite Nat.Div0.mod_add. f_equal.
    + unfold Post_get in *. now rewrite like_post_posts.
    + rewrite Hflip. lia.
Qed.

(** C2.  Starting from a store with no [Like] row for the user and the
    post, toggling the like any number of times leaves no row when the
    number is even and exactly one row when it is odd; and in every
    reachable store a (user, post) pair has at most one [Like] row. *)
Theorem like_toggle_parity
    (generate_password_hash : string -> string -> string)
    (check_password_hash : string -> string -> bool) :
  (forall (nows : list Z) (s : Session) (u p : Z) (db : Db),
      s_user_id s = Some u -> Post_get db p <> None ->
      like_rows db u p = [] ->
      List.length (like_rows (toggle_likes nows s p db) u p)
      = (List.length nows mod 2)%nat)
  /\ (forall db : Db,
         reachable generate_password_hash check_password_hash db ->
         forall u p : Z, (List.length (like_rows db u p) <= 1)%nat).
Proof.
  split.
  - intros nows s u p db Hs Hp Hnone.
    rewrite (toggle_likes_count nows s u p db Hs Hp);
      rewrite Hnone; [reflexivity|simpl; lia].
  - intros db Hr. apply wf_likes.
    eapply reachable_well_formed; eassumption.
Qed.

Lemma like_toggle_parity_witness :
  List.length
    (like_rows (toggle_likes [20; 21; 22] (session_of alice) 1 demo_db) 1 1)
  = 1%nat
  /\ List.length
       (like_rows (toggle_likes [20; 21] (session_of alice) 1 demo_db) 1 1)
     = 0%nat
  /\ (List.length (like_rows demo_db 1 1) <= 1)%nat.
Proof.
  split; [|split].
  - apply (proj1 (like_toggle_parity demo_hash demo_check)
             [20; 21; 22] (session_of alice) 1 1 demo_db);
      [reflexivity|discriminate|reflexivity].
  - apply (proj1 (like_toggle_parity demo_hash demo_check)
             [20; 21] (session_of alice) 1 1 demo_db);
      [reflexivity|discriminate|reflexivity].
  - apply (proj2 (like_toggle_parity demo_hash demo_check) demo_db).
    apply reachable_run. constructor.
Defined.

End Likes.

(** ** The follow graph *)

Module Graph.
Import Model Query Http App Routes Props Demo ListFacts Steps Invariants.

Lemma User_get_in (db : Db) (u : User) :
  In u (users db) ->
  exists u', User_get db (user_id_of u) = Some u'
             /\ user_id_of u' = user_id_of u.
Proof.
  intros Hin. unfold User_get.
  destruct (find (fun x => user_id_of x =? user_id_of u) (users db))
    as [u'|] eqn:E.
  - exists u'. split; [reflexivity|]. apply find_some in E. lia.
  - pose proof (find_none _ _ E u Hin) as F. simpl in F. lia.
Qed.

Lemma is_following_rows (db : Db) (a b : User) :
  is_following db a b = false
  <-> follow_rows db (user_id_of a) (user_id_of b) = [].
Proof.
  unfold is_following, followed_edge, follow_rows. split.
  - destruct (find _ _) eqn:E; [discriminate|].
    intros _. now apply find_none_filter.
  - intros H. now rewrite (filter_nil_find _ _ H).
Qed.

(** [User.follow] leaves exactly one edge, whether or not there was one,
    and a second [follow] changes nothing. *)
Lemma follow_one_edge (now : Z) (a b : User) (db : Db) :
  (List.length (follow_rows db (user_id_of a) (user_id_of b)) <= 1)%nat ->
  List.length (follow_rows (follow now a b db) (user_id_of a) (user_id_of b))
  = 1%nat
  /\ is_following (follow now a b db) a b = true.
Proof.
  intros Hle. unfold follow.
  destruct (is_following db a b) eqn:E; simpl.
  - split; [|exact E].
    destruct (follow_rows db (user_id_of a) (user_id_of b))
      as [|x [|y r]] eqn:R; simpl in *; [|reflexivity|lia].
    apply is_following_rows in R. congruence.
  - apply is_following_rows in E. split.
    + unfold follow_rows in *. simpl. rewrite filter_length_snoc. simpl.
      rewrite E, !Z.eqb_refl. reflexivity.
    + unfold is_following, followed_edge. simpl.
      unfold follow_rows in E.
      rewrite (find_snoc_none _ _ _ (filter_nil_find _ _ E)). simpl.
      rewrite !Z.eqb_refl. reflexivity.
Qed.

Lemma follow_twice (now1 now2 : Z) (a b : User) (db : Db) :
  (List.length (follow_rows db (user_id_of a) (user_id_of b)) <= 1)%nat ->
  follow now2 a b (follow now1 a b db) = follow now1 a b db.
Proof.
  intros Hle. destruct (follow_one_edge now1 a b db Hle) as [_ E].
  unfold follow at 1. now rewrite E.
Qed.

Lemma follow_users (now : Z) (a b : User) (db : Db) :
  users (follow now a b db) = users db.
Proof. unfold follow. crack; reflexivity. Qed.

Section Werkzeug.
Variable generate_password_hash : string -> string -> string.
Variable check_password_hash : string -> string -> bool.

#[local] Abbreviation reachable :=
  (reachable generate_password_hash check_password_hash).

(** C6.  In a reachable store, the request of a user to follow that same
    user is answered with the notice 'You cannot follow yourself!' and the
    store, hence the set of follow edges, is as before; and no reachable
    store holds an edge from a user to that same user. *)
Theorem self_follow_rejected :
  (forall (now : Z) (s : Session) (u : User) (db : Db),
      reachable db -> In u (users db) ->
      s_user_id s = Some (user_id_of u) ->
      follow_user now s (username u) db
      = mkResult db s [("You cannot follow yourself!", "danger")]
          (redirect (ep_profile (username u))))
  /\ (forall db : Db,
         reachable db ->
         forall f, In f (follows db) -> follower_id f <> followed_id f).
Proof.
  split.
  - intros now s u db Hr Hin Hs. unfold follow_user. rewrite Hs.
    rewrite (reachable_user_by_username _ _ db u Hr Hin).
    now rewrite Z.eqb_refl.
  - intros db Hr. apply wf_no_self_follow.
    eapply reachable_well_formed; eassumption.
Qed.

(** C7.  For two distinct users [a] and [b] of a reachable store, with
    [a] logged in: two requests of [a] to follow [b] both succeed, the
    second leaves the store as the first left it, and there is exactly one
    edge from [a] to [b]; and a request to unfollow [b] when there is no
    such edge succeeds and leaves the store as it was. *)
Theorem follow_idempotent_unfollow_noop
    (now1 now2 : Z) (s : Session) (a b : User) (db : Db) :
  reachable db -> In a (users db) -> In b (users db) ->
  user_id_of a <> user_id_of b ->
  s_user_id s = Some (user_id_of a) ->
  let followed_notice :=
    [(("You are now following " ++ username b ++ "!")%string, "success")] in
  let r1 := follow_user now1 s (username b) db in
  let r2 := follow_user now2 s (username b) (r_db r1) in
  (r_flash r1 = followed_notice /\ r_flash r2 = followed_notice
   /\ r_resp r1 = redirect (ep_profile (username b))
   /\ r_resp r2 = redirect (ep_profile (username b))
   /\ r_db r2 = r_db r1
   /\ List.length (follow_rows (r_db r2) (user_id_of a) (user_id_of b))
      = 1%nat)
  /\ (follow_rows db (user_id_of a) (user_id_of b) = [] ->
      unfollow_user s (username b) db
      = mkResult db s
          [(("You have unfollowed " ++ username b ++ ".")%string, "info")]
          (redirect (ep_profile (username b)))).
Proof.
  intros Hr Ha Hb Hne Hs.
  pose proof (reachable_user_by_username _ _ db b Hr Hb) as Eb.
  destruct (User_get_in db a Ha) as (a' & Ea & Eid).
  pose proof (wf_follows db (reachable_well_formed _ _ db Hr)
                (user_id_of a') (user_id_of b)) as Hle.
  assert (E1 : forall now, follow_user now s (username b) db
               = mkResult (follow now a' b db) s
                   [(("You are now following " ++ username b ++ "!")%string,
                     "success")]
                   (redirect (ep_profile (username b)))).
  { intros now. unfold follow_user, load_logged_in_user.
    rewrite Hs, Eb, Ea.
    destruct (user_id_of b =? user_id_of a) eqn:E; [lia|reflexivity]. }
  assert (E2 : follow_user now2 s (username b) (follow now1 a' b db)
               = mkResult (follow now2 a' b (follow now1 a' b db)) s
                   [(("You are now following " ++ username b ++ "!")%string,
                     "success")]
                   (redirect (ep_profile (username b)))).
  { unfold follow_user, load_logged_in_user, User_by_username, User_get.
    rewrite follow_users. fold (User_by_username db (username b)).
    rewrite Hs. fold (User_get db (user_id_of a)).
    rewrite Eb, Ea.
    destruct (user_id_of b =? user_id_of a) eqn:E; [lia|reflexivity]. }
  split.
  - cbv zeta. rewrite (E1 now1). cbn [r_db r_flash r_resp].
    rewrite E2. cbn [r_db r_flash r_resp].
    rewrite (follow_twice now1 now2 a' b db Hle).
    repeat split. rewrite <- Eid.
    apply (follow_one_edge now1 a' b db Hle).
  - intros Hnone. unfold unfollow_user, load_logged_in_user.
    rewrite Hs, Eb, Ea.
    destruct (user_id_of b =? user_id_of a) eqn:E; [lia|].
    unfold unfollow, followed_edge. rewrite Eid.
    unfold follow_rows in Hnone. rewrite (filter_nil_find _ _ Hnone).
    reflexivity.
Qed.

End Werkzeug.

Lemma follow_idempotent_unfollow_noop_witness :
  List.length
    (follow_rows
       (r_db (follow_user 31 (session_of alice) "bob"
                (r_db (follow_user 30 (session_of alice) "bob" demo_db))))
       1 2)
  = 1%nat
  /\ unfollow_user (session_of alice) "bob" demo_db
     = mkResult demo_db (session_of alice)
         [("You have unfollowed bob.", "info")] (redirect (ep_profile "bob")).
Proof.
  assert (Hr : reachable demo_hash demo_check demo_db)
    by (apply reachable_run; constructor).
  assert (Ha : In alice (users demo_db)) by (vm_compute; auto).
  assert (Hb : In bob (users demo_db)) by (vm_compute; auto).
  assert (Hne : user_id_of alice <> user_id_of bob) by discriminate.
  pose proof (follow_idempotent_unfollow_noop demo_hash demo_check 30 31
                (session_of alice) alice bob demo_db Hr Ha Hb Hne eq_refl)
    as [(_ & _ & _ & _ & _ & Hone) Hun].
  split; [exact Hone|].
  apply Hun. reflexivity.
Defined.

Lemma self_follow_rejected_witness :
  follow_user 30 (session_of alice) "alice" demo_db
  = mkResult demo_db (session_of alice)
      [("You cannot follow yourself!", "danger")]
      (redirect (ep_profile "alice"))
  /\ follower_id (mkFollow 1 3 11) <> followed_id (mkFollow 1 3 11).
Proof.
  assert (Hr : reachable demo_hash demo_check demo_db)
    by (apply reachable_run; constructor).
  destruct (self_follow_rejected demo_hash demo_check) as [Hself Hedges].
  split.
  - apply (Hself 30 (session_of alice) alice demo_db Hr);
      [vm_compute; auto|reflexivity].
  - apply (Hedges demo_db Hr). vm_compute. auto.
Defined.

End Graph.

(** ** Conversations *)

Module Conversations.
Import Model Query Http App Routes Props Demo Integrity.
Import ListFacts Steps Invariants.

Lemma find_conversation_sym (db : Db) (a b : Z) :
  find_conversation db a b = find_conversation db b a.
Proof.
  unfold find_conversation.
  induction (conversations db) as [|c l IH]; simpl; [reflexivity|].
  rewrite IH, orb_comm. reflexivity.
Qed.

(** Once found or created, the conversation is found again, whichever
    of the two users asks. *)
Lemma get_or_create_conversation_found (db db1 : Db) (a b : Z)
    (c : Conversation) :
  get_or_create_conversation db a b = (db1, c) ->
  find_conversation db1 a b = Some c.
Proof.
  unfold get_or_create_conversation.
  destruct (find_conversation db a b) as [c0|] eqn:E; intros H;
    inversion H; subst; [exact E|].
  unfold find_conversation in *. simpl.
  rewrite (find_snoc_none _ _ _ E). simpl.
  rewrite !Z.eqb_refl. reflexivity.
Qed.

(** The conversation found or created is a row of the store left, its
    participants are the two users, and it is written only when the
    store had no row for the two. *)
Lemma get_or_create_conversation_row (db db1 : Db) (a b : Z)
    (c : Conversation) :
  get_or_create_conversation db a b = (db1, c) ->
  In c (conversations db1)
  /\ between c a b
  /\ (conversation_rows db a b <> [] ->
      db1 = db /\ In c (conversations db))
  /\ (conversation_rows db a b = [] ->
      c = mkConversation (next_conversation db) a b
      /\ db1 = add_conversation c db).
Proof.
  unfold get_or_create_conversation, between.
  destruct (find_conversation db a b) as [c0|] eqn:E; intros H;
    injection H as Edb Ec; subst db1 c.
  - unfold find_conversation in E. pose proof (find_some _ _ E) as [Hin Hm].
    split; [exact Hin|]. split; [|split].
    + apply orb_true_iff in Hm. rewrite !andb_true_iff, !Z.eqb_eq in Hm.
      exact Hm.
    + intros _. now split.
    + intros Hnone. exfalso.
      assert (Hrow : In c0 (conversation_rows db a b))
        by (apply filter_In; now split).
      rewrite Hnone in Hrow. contradiction.
  - split; [simpl; apply in_or_app; right; now left|].
    split; [left; now split|]. split.
    + intros Hrows. exfalso. apply Hrows.
      now apply find_none_filter.
    + intros _. now split.
Qed.

Lemma single_row {A : Type} (f : A -> bool) (l : list A) (x : A) :
  (List.length (filter f l) <= 1)%nat -> In x l -> f x = true ->
  filter f l = [x].
Proof.
  intros Hle Hin Hf.
  assert (Hx : In x (filter f l)) by (apply filter_In; now split).
  destruct (filter f l) as [|y [|z r]]; simpl in *; [contradiction| |lia].
  destruct Hx as [->|[]]. reflexivity.
Qed.

Lemma find_filter_hd {A : Type} (f : A -> bool) (l : list A) :
  find f l = hd_error (filter f l).
Proof.
  induction l as [|x l IH]; simpl; [reflexivity|].
  destruct (f x); [reflexivity|exact IH].
Qed.

Lemma between_match (c : Conversation) (a b : Z) :
  ((user1_id c =? a) && (user2_id c =? b))
  || ((user1_id c =? b) && (user2_id c =? a)) = true
  <-> between c a b.
Proof.
  unfold between. rewrite orb_true_iff, !andb_true_iff, !Z.eqb_eq.
  reflexivity.
Qed.

(** In a store with at most one row for two users, that row is the one
    the look-up of [conversation] finds. *)
Lemma find_conversation_row (db : Db) (a b : Z) (c : Conversation) :
  (List.length (conversation_rows db a b) <= 1)%nat ->
  In c (conversations db) -> between c a b ->
  find_conversation db a b = Some c.
Proof.
  intros Hle Hin Hb. unfold find_conversation. rewrite find_filter_hd.
  apply between_match in Hb.
  unfold conversation_rows in Hle.
  now rewrite (single_row _ _ c Hle Hin Hb).
Qed.

(** After find-or-create in a store with at most one row for the two
    users, the row returned is the only row for the two. *)
Lemma get_or_create_conversation_single (db db1 : Db) (a b : Z)
    (c : Conversation) :
  (List.length (conversation_rows db a b) <= 1)%nat ->
  get_or_create_conversation db a b = (db1, c) ->
  conversation_rows db1 a b = [c].
Proof.
  intros Hle H.
  destruct (get_or_create_conversation_row db db1 a b c H)
    as (Hin & Hbetween & Hold & Hnew).
  apply between_match in Hbetween.
  destruct (conversation_rows db a b) as [|c0 r] eqn:E.
  - destruct (Hnew eq_refl) as [_ ->]. unfold conversation_rows in *.
    cbn [conversations add_conversation]. rewrite filter_app, E.
    cbn. now rewrite Hbetween.
  - destruct Hold as [-> Hc]; [discriminate|].
    unfold conversation_rows in *. apply single_row; try assumption.
    now rewrite E.
Qed.

(** C3.  The conversation that find-or-create returns for two users is a
    row of the store it leaves, and its participants are these two
    users; when the store had a row for the two, in either order, that
    row is returned and nothing is written, otherwise exactly one row is
    appended.  After that, each of the two users gets that same row, and
    no row is added, whichever of them asks next.  The route
    [conversation] leaves the store that this find-or-create leaves and
    shows the conversation it returns.  In every reachable store there
    is at most one [Conversation] row for an unordered pair of users,
    and after find-or-create exactly one: the row returned. *)
Theorem conversation_unique_per_pair
    (generate_password_hash : string -> string -> string)
    (check_password_hash : string -> string -> bool) :
  (forall (db db1 : Db) (a b : Z) (c : Conversation),
      get_or_create_conversation db a b = (db1, c) ->
      get_or_create_conversation db1 b a = (db1, c)
      /\ get_or_create_conversation db1 a b = (db1, c))
  /\ (forall (now : Z) (s : Session) (a b : Z) (db : Db),
         s_user_id s = Some a -> User_get db b <> None ->
         r_db (conversation now s b None db)
         = fst (get_or_create_conversation db a b))
  /\ (forall db : Db,
         reachable generate_password_hash check_password_hash db ->
         forall a b : Z,
           (List.length (conversation_rows db a b) <= 1)%nat)
  /\ (forall (db db1 : Db) (a b : Z) (c : Conversation),
         get_or_create_conversation db a b = (db1, c) ->
         In c (conversations db1)
         /\ between c a b
         /\ (conversation_rows db a b <> [] ->
             db1 = db /\ In c (conversations db))
         /\ (conversation_rows db a b = [] ->
             c = mkConversation (next_conversation db) a b
             /\ db1 = add_conversation c db))
  /\ (forall (db db1 : Db) (a b : Z) (c : Conversation),
         reachable generate_password_hash check_password_hash db ->
         get_or_create_conversation db a b = (db1, c) ->
         conversation_rows db1 a b = [c]
         /\ conversation_rows db1 b a = [c])
  /\ (forall (now : Z) (s : Session) (a b : Z) (form : option string)
             (db : Db) (conv : Conversation) (other : User)
             (shown : list (Message * string)) (cur : Z),
         s_user_id s = Some a ->
         r_resp (conversation now s b form db)
         = render_conversation conv other shown cur ->
         conv = snd (get_or_create_conversation db a b)
         /\ cur = a /\ User_get db b = Some other).
Proof.
  split; [|split; [|split; [|split; [|split]]]].
  - intros db db1 a b c H.
    apply get_or_create_conversation_found in H.
    unfold get_or_create_conversation.
    rewrite (find_conversation_sym db1 b a), H. split; reflexivity.
  - intros now s a b db Hs Hb. unfold conversation. rewrite Hs.
    destruct (User_get db b) as [other|]; [|contradiction].
    destruct (get_or_create_conversation db a b) as [db1 conv].
    unfold show_conversation. crack; reflexivity.
  - intros db Hr. apply wf_conversations.
    eapply reachable_well_formed; eassumption.
  - intros db db1 a b c. apply get_or_create_conversation_row.
  - intros db db1 a b c Hr H.
    pose proof (wf_conversations db (reachable_well_formed _ _ db Hr) a b)
      as Hle.
    pose proof (get_or_create_conversation_single db db1 a b c Hle H)
      as Hrows.
    split; [exact Hrows|]. now rewrite conversation_rows_sym.
  - intros now s a b form db conv other shown cur Hs.
    unfold conversation. rewrite Hs.
    destruct (User_get db b) as [o|]; [|discriminate].
    destruct (get_or_create_conversation db a b) as [db1 c].
    unfold show_conversation. cbn [snd].
    crack; cbn [r_resp]; try discriminate;
      intros H; inversion H; subst; auto.
Qed.

Lemma conversation_unique_per_pair_witness :
  get_or_create_conversation
    (fst (get_or_create_conversation demo_db 1 2)) 2 1
  = get_or_create_conversation demo_db 1 2
  /\ conversations (r_db (conversation 40 (session_of alice) 2 None demo_db))
     = [mkConversation 1 1 2]
  /\ (List.length (conversation_rows demo_db 1 2) <= 1)%nat
  /\ between (snd (get_or_create_conversation busy_db 2 1)) 2 1
  /\ fst (get_or_create_conversation busy_db 2 1) = busy_db
  /\ conversation_rows (fst (get_or_create_conversation demo_db 3 1)) 1 3
     = [mkConversation 1 3 1].
Proof.
  destruct (conversation_unique_per_pair demo_hash demo_check)
    as (Hsame & Hroute & Hinv & Hrow & Hone & _).
  assert (Ebusy : get_or_create_conversation busy_db 2 1
                  = (fst (get_or_create_conversation busy_db 2 1),
                     snd (get_or_create_conversation busy_db 2 1)))
    by (destruct (get_or_create_conversation busy_db 2 1); reflexivity).
  assert (Edemo : get_or_create_conversation demo_db 3 1
                  = (fst (get_or_create_conversation demo_db 3 1),
                     mkConversation 1 3 1))
    by (vm_compute; reflexivity).
  split; [|split; [|split; [|split; [|split]]]].
  - apply (Hsame demo_db _ 1 2 _). vm_compute. reflexivity.
  - rewrite (Hroute 40 (session_of alice) 1 2 demo_db);
      [vm_compute; reflexivity|reflexivity|discriminate].
  - apply Hinv. apply reachable_run. constructor.
  - exact (proj1 (proj2 (Hrow busy_db _ 2 1 _ Ebusy))).
  - destruct (Hrow busy_db _ 2 1 _ Ebusy) as (_ & _ & Hold & _).
    refine (proj1 (Hold _)). vm_compute. discriminate.
  - apply (Hone demo_db _ 3 1 _); [apply reachable_run; constructor|].
    exact Edemo.
Defined.

End Conversations.

(** ** Identity: login and profile *)

Module Identity.
Import Model Query Http App Routes Props Demo ListFacts Steps Invariants.

Section Werkzeug.
Variable generate_password_hash : string -> string -> string.
Variable check_password_hash : string -> string -> bool.

#[local] Abbreviation reachable :=
  (reachable generate_password_hash check_password_hash).
#[local] Abbreviation login := (login check_password_hash).

(** C9.  In a reachable store, [login] with a username and a password logs
    in the user of that name when the password verifies against the stored
    hash: the session becomes that user's.  When no user of the store has
    that name and a hash the password verifies against, the answer is the
    one notice 'Invalid username or password.', with the store and the
    session untouched: the same whether the name is unknown or the
    password is wrong.  And a redirect to the index is given only to a
    user whose name and password matched. *)
Theorem login_invalid_credentials
    (s : Session) (name password : string) (db : Db) :
  reachable db ->
  let r := login s (Some (name, password)) db in
  (forall u, In u (users db) -> username u = name ->
             check_password_hash (password_hash u) password = true ->
             r = mkResult db (session_of u)
                   [("Logged in successfully!", "success")]
                   (redirect ep_index))
  /\ ((forall u, In u (users db) -> username u = name ->
                 check_password_hash (password_hash u) password = false) ->
      r = mkResult db s [("Invalid username or password.", "danger")]
            render_login)
  /\ (r_resp r = redirect ep_index ->
      exists u, In u (users db) /\ username u = name
                /\ check_password_hash (password_hash u) password = true
                /\ r_session r = session_of u).
Proof.
  intros Hr r. subst r. unfold Routes.login, check_password.
  split; [|split].
  - intros u Hin Hname Hck. subst name.
    rewrite (reachable_user_by_username _ _ db u Hr Hin), Hck. reflexivity.
  - intros Hall.
    destruct (User_by_username db name) as [u|] eqn:E; [|reflexivity].
    unfold User_by_username in E. apply find_some in E.
    destruct E as [Hin Hname]. apply String.eqb_eq in Hname.
    now rewrite (Hall u Hin Hname).
  - destruct (User_by_username db name) as [u|] eqn:E;
      [|discriminate].
    unfold User_by_username in E. apply find_some in E.
    destruct E as [Hin Hname]. apply String.eqb_eq in Hname.
    destruct (check_password_hash (password_hash u) password) eqn:Hck;
      [|discriminate].
    intros _. exists u. repeat split; assumption.
Qed.

End Werkzeug.

Lemma login_invalid_credentials_witness :
  login demo_check anonymous (Some ("alice", "wonderland")) demo_db
  = mkResult demo_db (session_of alice)
      [("Logged in successfully!", "success")] (redirect ep_index)
  /\ login demo_check anonymous (Some ("alice", "builder")) demo_db
     = login demo_check anonymous (Some ("dave", "builder")) demo_db.
Proof.
  assert (Hr : reachable demo_hash demo_check demo_db)
    by (apply reachable_run; constructor).
  pose proof (login_invalid_credentials demo_hash demo_check anonymous
                "alice" "wonderland" demo_db Hr) as (Hok & _ & _).
  pose proof (login_invalid_credentials demo_hash demo_check anonymous
                "alice" "builder" demo_db Hr) as (_ & Hwrong & _).
  pose proof (login_invalid_credentials demo_hash demo_check anonymous
                "dave" "builder" demo_db Hr) as (_ & Hunknown & _).
  split.
  - apply (Hok alice); [vm_compute; auto|reflexivity|reflexivity].
  - rewrite Hwrong, Hunknown; [reflexivity| |];
      intros u [<-|[<-|[<-|[]]]] Hname; vm_compute in Hname |- *;
      first [reflexivity|discriminate].
Defined.

(** C10.  For a logged-in user, a profile edit sets the bio to the
    submitted one; an empty [profile_picture] field leaves the stored
    picture, any other replaces it; the name and the password hash of the
    user stay, as do the rows of the other users and the other tables. *)
Theorem edit_profile_frame
    (s : Session) (uid : Z) (u : User) (new_bio picture : string) (db : Db) :
  s_user_id s = Some uid -> User_get db uid = Some u ->
  let r := edit_profile s (Some (new_bio, picture)) db in
  let u' := mkUser (user_id_of u) (username u) (password_hash u)
              (Some new_bio)
              (if is_empty picture then profile_picture u
               else Some picture) in
  User_get (r_db r) uid = Some u'
  /\ (picture = "" -> profile_picture u' = profile_picture u)
  /\ (picture <> "" -> profile_picture u' = Some picture)
  /\ map user_id_of (users (r_db r)) = map user_id_of (users db)
  /\ map username (users (r_db r)) = map username (users db)
  /\ map password_hash (users (r_db r)) = map password_hash (users db)
  /\ (forall v, user_id_of v <> uid ->
                (In v (users (r_db r)) <-> In v (users db)))
  /\ posts (r_db r) = posts db /\ comments (r_db r) = comments db
  /\ likes (r_db r) = likes db /\ follows (r_db r) = follows db
  /\ conversations (r_db r) = conversations db
  /\ messages (r_db r) = messages db.
Proof.
  intros Hs Hu. cbv zeta.
  pose proof (User_get_id db uid u Hu) as Hid.
  unfold edit_profile, load_logged_in_user. rewrite Hs, Hu.
  cbn [r_db]. unfold update_profile. cbn.
  split; [|split; [|split; [|split; [|split; [|split; [|split]]]]]].
  - unfold User_get in *. cbn.
    induction (users db) as [|x l IH]; cbn in *; [discriminate|].
    destruct (user_id_of x =? uid) eqn:E.
    + inversion Hu; subst x. rewrite Z.eqb_refl. cbn. now rewrite E.
    + rewrite Hid, E. cbn. rewrite E. rewrite Hid in IH. now apply IH.
  - intros ->. reflexivity.
  - intros Hne. destruct picture; [contradiction|reflexivity].
  - rewrite map_map. apply map_ext. intros x.
    destruct (user_id_of x =? _); reflexivity.
  - rewrite map_map. apply map_ext. intros x.
    destruct (user_id_of x =? _); reflexivity.
  - rewrite map_map. apply map_ext. intros x.
    destruct (user_id_of x =? _); reflexivity.
  - intros v Hv. rewrite in_map_iff. split.
    + intros (x & Hx & Hin).
      destruct (user_id_of x =? user_id_of u) eqn:E.
      * subst v. simpl in Hv. lia.
      * now subst v.
    + intros Hin. exists v. split; [|exact Hin].
      destruct (user_id_of v =? user_id_of u) eqn:E; [lia|reflexivity].
  - repeat split.
Qed.

Lemma edit_profile_frame_witness :
  User_get
    (r_db (edit_profile (session_of alice) (Some ("Tea drinker", ""))
             demo_db)) 1
  = Some (mkUser 1 "alice" (demo_hash "na" "wonderland")
            (Some "Tea drinker") default_picture).
Proof.
  apply (edit_profile_frame (session_of alice) 1 alice "Tea drinker" ""
           demo_db); reflexivity.
Defined.

End Identity.

(** ** Messages and comments: the empty text *)

Module Texts.
Import Model Query Http App Routes Props Demo ListFacts Steps Invariants.

Lemma is_empty_spec (text : string) : is_empty text = true <-> text = "".
Proof. destruct text; simpl; split; congruence. Qed.

Lemma get_or_create_conversation_messages (db : Db) (a b : Z) :
  messages (fst (get_or_create_conversation db a b)) = messages db
  /\ next_message (fst (get_or_create_conversation db a b))
     = next_message db.
Proof.
  unfold get_or_create_conversation.
  destruct (find_conversation db a b); split; reflexivity.
Qed.

(** C4, as the specification states it, fails: a message of one space is
    blank, yet it is stored. *)
Lemma blank_message_is_stored :
  blank " " = true
  /\ r_flash (conversation 40 (session_of alice) 2 (Some " ") demo_db) = []
  /\ messages (r_db (conversation 40 (session_of alice) 2 (Some " ") demo_db))
     = [mkMessage 1 1 1 " " 40]
  /\ ~ blank_message_refused 40 (session_of alice) 2 " " demo_db.
Proof.
  repeat split. unfold blank_message_refused. intros H.
  destruct (H eq_refl) as [Hflash _]. vm_compute in Hflash. discriminate.
Qed.

(** C4, amended.  For a logged-in sender and an existing other user, a
    POST to [conversation] with the empty text flashes 'Message cannot be
    empty.' and leaves the [message] table as it was; with any other text,
    white space included, it appends exactly one message, with that text,
    the sender, the conversation found or created, and the time of the
    store's clock. *)
Theorem send_message_empty_text
    (now : Z) (s : Session) (current_user_id other_user_id : Z)
    (text : string) (db : Db) :
  s_user_id s = Some current_user_id ->
  User_get db other_user_id <> None ->
  let r := conversation now s other_user_id (Some text) db in
  let conv :=
    snd (get_or_create_conversation db current_user_id other_user_id) in
  (text = "" ->
   r_flash r = [("Message cannot be empty.", "danger")]
   /\ messages (r_db r) = messages db)
  /\ (text <> "" ->
      messages (r_db r)
      = messages db
        ++ [mkMessage (next_message db) (conversation_id_of conv)
              current_user_id text now]
      /\ r_flash r = []
      /\ r_resp r = redirect (ep_conversation other_user_id)).
Proof.
  intros Hs Hother. cbv zeta. unfold conversation. rewrite Hs.
  destruct (User_get db other_user_id) as [other|]; [|contradiction].
  destruct (get_or_create_conversation_messages db current_user_id
              other_user_id) as [Hm Hn].
  destruct (get_or_create_conversation db current_user_id other_user_id)
    as [db1 conv]. simpl in Hm, Hn. cbn [snd].
  split.
  - intros ->. cbn [is_empty]. unfold show_conversation.
    crack; cbn; auto.
  - intros Hne. destruct text; [contradiction|]. cbn.
    rewrite Hm, Hn. auto.
Qed.

Lemma send_message_empty_text_witness :
  messages (r_db (conversation 40 (session_of alice) 2 (Some "") demo_db))
  = []
  /\ messages (r_db (conversation 40 (session_of alice) 2 (Some " ") demo_db))
     = [mkMessage 1 1 1 " " 40].
Proof.
  assert (Hother : User_get demo_db 2 <> None) by discriminate.
  pose proof (send_message_empty_text 40 (session_of alice) 1 2 ""
                demo_db eq_refl Hother) as [Hempty _].
  pose proof (send_message_empty_text 40 (session_of alice) 1 2 " "
                demo_db eq_refl Hother) as [_ Hspace].
  split.
  - apply (Hempty eq_refl).
  - apply Hspace. discriminate.
Defined.

(** C5, as the specification states it, fails: a comment of one space is
    empty once trimmed, yet it is stored. *)
Lemma blank_comment_is_stored :
  blank " " = true
  /\ r_flash (add_comment 40 (session_of alice) 1 " " demo_db)
     = [("Comment added successfully!", "success")]
  /\ comments (r_db (add_comment 40 (session_of alice) 1 " " demo_db))
     = [mkComment 1 " " 1 1 40]
  /\ ~ blank_comment_refused 40 (session_of alice) 1 " " demo_db.
Proof.
  repeat split. unfold blank_comment_refused. intros H.
  destruct (H eq_refl) as [Hflash _]. vm_compute in Hflash. discriminate.
Qed.

(** C5, amended.  For a logged-in user and an existing post,
    [add_comment] with the empty text flashes 'Comment cannot be empty.'
    and leaves the store as it was; with any other text, white space
    included (the text is not trimmed), it appends exactly one comment
    with that text. *)
Theorem add_comment_empty_text
    (now : Z) (s : Session) (user_id post_id : Z) (text : string)
    (db : Db) :
  s_user_id s = Some user_id -> Post_get db post_id <> None ->
  let r := add_comment now s post_id text db in
  (text = "" ->
   r = mkResult db s [("Comment cannot be empty.", "danger")]
         (redirect ep_index))
  /\ (text <> "" ->
      comments (r_db r)
      = comments db ++ [mkComment (next_comment db) text user_id post_id now]
      /\ r_flash r = [("Comment added successfully!", "success")]).
Proof.
  intros Hs Hp. cbv zeta. unfold add_comment. rewrite Hs.
  destruct (Post_get db post_id) as [post|] eqn:Ep; [|contradiction].
  apply Post_get_id in Ep. split.
  - intros ->. reflexivity.
  - intros Hne. destruct text; [contradiction|]. cbn. rewrite Ep. auto.
Qed.

Lemma add_comment_empty_text_witness :
  add_comment 40 (session_of alice) 1 "" demo_db
  = mkResult demo_db (session_of alice)
      [("Comment cannot be empty.", "danger")] (redirect ep_index)
  /\ comments (r_db (add_comment 40 (session_of alice) 1 " " demo_db))
     = [mkComment 1 " " 1 1 40].
Proof.
  assert (Hp : Post_get demo_db 1 <> None) by discriminate.
  pose proof (add_comment_empty_text 40 (session_of alice) 1 1 ""
                demo_db eq_refl Hp) as [Hempty _].
  pose proof (add_comment_empty_text 40 (session_of alice) 1 1 " "
                demo_db eq_refl Hp) as [_ Hspace].
  split.
  - apply (Hempty eq_refl).
  - apply Hspace. discriminate.
Defined.

End Texts.

(** ** Search *)

Module Search.
Import Model Query Http App Routes Props Demo ListFacts Steps Invariants.

(** *** [LIKE] on a pattern without wildcards *)












(** The example of the specification: the caption "Cats are great"
    matches the query "CAT". *)
Example search_cat :
  resp_posts (r_resp (search anonymous (Some "CAT") demo_db)) = [bob_post].
Proof. reflexivity. Qed.




End Search.

(** ** The feed *)

Module Feed.
Import Model Query Http App Routes Props Demo ListFacts Steps Invariants.

Lemma option_string_eqb_eq (a b : option string) :
  option_string_eqb a b = true <-> a = b.
Proof.
  destruct a as [x|], b as [y|]; simpl; try (split; congruence).
  rewrite String.eqb_eq. split; congruence.
Qed.

Lemma Post_eqb_eq (p q : Post) : Post_eqb p q = true <-> p = q.
Proof.
  unfold Post_eqb. rewrite !andb_true_iff, !Z.eqb_eq, String.eqb_eq,
    option_string_eqb_eq.
  destruct p, q; simpl. split.
  - intros ((((-> & ->) & ->) & ->) & ->). reflexivity.
  - intros H. inversion H. auto.
Qed.

Lemma existsb_Post_eqb (p : Post) (l : list Post) :
  existsb (Post_eqb p) l = true <-> In p l.
Proof.
  rewrite existsb_exists. split.
  - intros (q & Hin & E). apply Post_eqb_eq in E. now subst.
  - intros Hin. exists p. split; [exact Hin|now apply Post_eqb_eq].
Qed.

Lemma union_distinct_in (l : list Post) (p : Post) :
  In p (union_distinct l) <-> In p l.
Proof.
  induction l as [|q l IH]; simpl; [reflexivity|].
  destruct (existsb (Post_eqb q) l) eqn:E; simpl; rewrite IH.
  - apply existsb_Post_eqb in E. split; [auto|].
    intros [->|H]; assumption.
  - reflexivity.
Qed.

Lemma union_distinct_nodup (l : list Post) : NoDup (union_distinct l).
Proof.
  induction l as [|q l IH]; simpl; [constructor|].
  destruct (existsb (Post_eqb q) l) eqn:E; [exact IH|].
  constructor; [|exact IH].
  rewrite union_distinct_in. intros Hin.
  apply existsb_Post_eqb in Hin. congruence.
Qed.

(** The posts of [get_followed_posts]: those of the user and of the users
    the user follows, each once, newest first. *)
Lemma get_followed_posts_spec (db : Db) (u : User) :
  (forall p, In p (get_followed_posts db u)
             <-> In p (posts db)
                 /\ (post_user_id p = user_id_of u
                     \/ follows_edge db (user_id_of u) (post_user_id p)))
  /\ NoDup (get_followed_posts db u)
  /\ newest_first (get_followed_posts db u).
Proof.
  unfold get_followed_posts. split; [|split].
  - intros p. rewrite (order_by_in created_at_desc), union_distinct_in,
      in_app_iff, in_flat_map, filter_In. split.
    + intros [(q & Hq & Hin)|[Hin E]].
      * apply in_flat_map in Hin. destruct Hin as (f & Hf & Hin).
        destruct ((followed_id f =? post_user_id q)
                  && (follower_id f =? user_id_of u)) eqn:E;
          [|contradiction].
        destruct Hin as [<-|[]]. split; [exact Hq|]. right.
        apply andb_true_iff in E. exists f.
        split; [exact Hf|lia].
      * split; [exact Hin|]. left. lia.
    + intros [Hin [E|(f & Hf & Ea & Eb)]].
      * right. split; [exact Hin|lia].
      * left. exists p. split; [exact Hin|].
        apply in_flat_map. exists f. split; [exact Hf|].
        replace ((followed_id f =? post_user_id p)
                 && (follower_id f =? user_id_of u)) with true
          by (symmetry; apply andb_true_iff; lia).
        now left.
  - eapply Permutation_NoDup; [apply order_by_perm|].
    apply union_distinct_nodup.
  - apply order_by_newest_first.
Qed.

(** The example of the specification: alice follows carol, and her feed
    is her own post, the newer, then carol's. *)
Example get_followed_posts_alice :
  get_followed_posts demo_db alice = [alice_post; carol_post].
Proof. reflexivity. Qed.

Lemma index_items (s : Session) (uid page : Z) (db : Db) :
  s_user_id s = Some uid ->
  resp_posts (r_resp (index s page db))
  = page_of (order_by created_at_desc (posts db)) (Z.max 1 page).
Proof.
  intros Hs. unfold index, paginate, page_of. rewrite Hs.
  cbn [r_resp resp_posts pg_items].
  change (Z.to_nat 10) with 10%nat.
  destruct (page <? 1) eqn:E; do 3 f_equal; lia.
Qed.

(** Every row is on some page. *)
Lemma page_of_covers (rows : list Post) (p : Post) :
  In p rows -> exists page, 1 <= page /\ In p (page_of rows page).
Proof.
  intros Hin. apply In_nth_error in Hin. destruct Hin as [i Hi].
  exists (Z.of_nat (i / 10) + 1). split; [lia|].
  apply nth_error_In with (n := (i mod 10)%nat).
  unfold page_of. rewrite nth_error_firstn.
  pose proof (Nat.mod_upper_bound i 10 ltac:(lia)) as Hlt.
  apply Nat.ltb_lt in Hlt. rewrite Hlt.
  rewrite nth_error_skipn.
  replace (Z.to_nat (10 * (Z.of_nat (i / 10) + 1 - 1)) + i mod 10)%nat
    with i; [exact Hi|].
  pose proof (Nat.div_mod_eq i 10). lia.
Qed.

(** C1, as the specification states it, fails: the page that [index]
    shows to alice holds the post of bob, whom alice does not follow. *)
Lemma index_shows_unfollowed_author :
  In bob_post (resp_posts (r_resp (index (session_of alice) 1 demo_db)))
  /\ post_user_id bob_post <> user_id_of alice
  /\ ~ follows_edge demo_db (user_id_of alice) (post_user_id bob_post)
  /\ ~ feed_of_followed demo_db alice
         (resp_posts (r_resp (index (session_of alice) 1 demo_db))).
Proof.
  assert (Hin : In bob_post
                  (resp_posts
                     (r_resp (index (session_of alice) 1 demo_db))))
    by (vm_compute; auto).
  assert (Hedge : ~ follows_edge demo_db (user_id_of alice)
                      (post_user_id bob_post)).
  { intros (f & Hf & _ & Hb). vm_compute in Hf.
    destruct Hf as [<-|[]]. discriminate. }
  repeat split; [exact Hin|discriminate|exact Hedge|].
  intros H. destruct (H bob_post Hin) as [E|E]; [discriminate|auto].
Qed.

(** C1, amended.  [User.get_followed_posts] returns exactly the posts of
    the user and of the users the user follows, each once, newest first,
    and is not paginated.  The route [index] does not call it: to a
    logged-in user it shows page [page] (ten posts to a page, a page below
    1 read as page 1) of all the posts of the store, newest first,
    whoever wrote them, so that every post of the store is on some
    page. *)
Theorem feed_and_index (s : Session) (uid page : Z) (u : User) (db : Db) :
  s_user_id s = Some uid ->
  ((forall p, In p (get_followed_posts db u)
              <-> In p (posts db)
                  /\ (post_user_id p = user_id_of u
                      \/ follows_edge db (user_id_of u) (post_user_id p)))
   /\ NoDup (get_followed_posts db u)
   /\ newest_first (get_followed_posts db u))
  /\ (let all_posts := order_by created_at_desc (posts db) in
      Permutation (posts db) all_posts
      /\ newest_first all_posts
      /\ resp_posts (r_resp (index s page db))
         = page_of all_posts (Z.max 1 page)
      /\ (List.length (resp_posts (r_resp (index s page db))) <= 10)%nat
      /\ (forall p, In p (posts db) ->
                    exists page', 1 <= page'
                      /\ In p (resp_posts (r_resp (index s page' db))))).
Proof.
  intros Hs. split; [apply get_followed_posts_spec|].
  cbv zeta. split; [apply order_by_perm|].
  split; [apply order_by_newest_first|].
  split; [now apply index_items with (uid := uid)|]. split.
  - rewrite (index_items s uid page db Hs). unfold page_of.
    apply firstn_le_length.
  - intros p Hin.
    apply (order_by_in created_at_desc) in Hin.
    destruct (page_of_covers _ p Hin) as (page' & Hle & Hp).
    exists page'. split; [exact Hle|].
    rewrite (index_items s uid page' db Hs).
    now replace (Z.max 1 page') with page' by lia.
Qed.

Lemma feed_and_index_witness :
  NoDup (get_followed_posts demo_db alice)
  /\ resp_posts (r_resp (index (session_of alice) 1 demo_db))
     = [alice_post; carol_post; bob_post].
Proof.
  pose proof (feed_and_index (session_of alice) 1 1 alice demo_db eq_refl)
    as [(_ & Hnodup & _) (_ & _ & Hpage & _)].
  split; [exact Hnodup|]. rewrite Hpage. reflexivity.
Defined.

End Feed.

(** ** Primary keys *)

Module Keys.
Import Model Query Http App Routes Props Demo Integrity.
Import ListFacts Steps Invariants.

Lemma fresh_keys_step {A : Type} (key : A -> Z) (rows rows' : list A)
    (next next' : Z) :
  table_step key rows next rows' next' ->
  fresh_keys key rows next -> fresh_keys key rows' next'.
Proof.
  intros Hstep [Hnodup Hlt]. destruct Hstep as [|g|f Hf|r Hr].
  - now split.
  - split.
    + clear Hlt. induction rows as [|x rows IH]; simpl; [constructor|].
      inversion Hnodup as [|k ks Hnot Hnd]; subst.
      destruct (g x); simpl; [|now apply IH].
      constructor; [|now apply IH].
      intros Hin. apply Hnot. apply in_map_iff in Hin.
      destruct Hin as (y & Ey & Hy). apply filter_In in Hy.
      apply in_map_iff. exists y. tauto.
    + intros r Hin. apply filter_In in Hin. now apply Hlt.
  - split.
    + rewrite map_map. now rewrite (map_ext _ key Hf).
    + intros r Hin. apply in_map_iff in Hin.
      destruct Hin as (x & <- & Hx). rewrite Hf. now apply Hlt.
  - split.
    + rewrite map_app. simpl. apply NoDup_app; [exact Hnodup| |].
      * repeat constructor. intros [].
      * intros k Hk [<-|[]]. apply in_map_iff in Hk.
        destruct Hk as (x & Ex & Hx). specialize (Hlt x Hx). lia.
    + intros x Hin. apply in_app_or in Hin.
      destruct Hin as [Hin|[<-|[]]]; [specialize (Hlt x Hin)|]; lia.
Qed.

Ltac table_cases req :=
  destruct req; open_routes; crack; simpl; unfold delete_by_key;
  first
    [ apply table_same
    | apply table_delete
    | apply table_insert; reflexivity
    | apply table_update; intros ?; simpl;
      match goal with |- context [if ?c then _ else _] => destruct c end;
      reflexivity ].

Section Werkzeug.
Variable generate_password_hash : string -> string -> string.
Variable check_password_hash : string -> string -> bool.

#[local] Abbreviation handle :=
  (handle generate_password_hash check_password_hash).
#[local] Abbreviation reachable :=
  (reachable generate_password_hash check_password_hash).
#[local] Abbreviation run :=
  (run generate_password_hash check_password_hash).

Lemma users_table_step (now : Z) (s : Session) (req : Request) (db : Db) :
  table_step user_id_of (users db) (next_user db)
    (users (r_db (handle now s req db)))
    (next_user (r_db (handle now s req db))).
Proof. table_cases req. Qed.

Lemma posts_table_step (now : Z) (s : Session) (req : Request) (db : Db) :
  table_step post_id_of (posts db) (next_post db)
    (posts (r_db (handle now s req db)))
    (next_post (r_db (handle now s req db))).
Proof. table_cases req. Qed.

Lemma comments_table_step (now : Z) (s : Session) (req : Request) (db : Db) :
  table_step comment_id_of (comments db) (next_comment db)
    (comments (r_db (handle now s req db)))
    (next_comment (r_db (handle now s req db))).
Proof. table_cases req. Qed.

Lemma likes_table_step (now : Z) (s : Session) (req : Request) (db : Db) :
  table_step like_id_of (likes db) (next_like db)
    (likes (r_db (handle now s req db)))
    (next_like (r_db (handle now s req db))).
Proof. table_cases req. Qed.

Lemma conversations_table_step (now : Z) (s : Session) (req : Request)
    (db : Db) :
  table_step conversation_id_of (conversations db) (next_conversation db)
    (conversations (r_db (handle now s req db)))
    (next_conversation (r_db (handle now s req db))).
Proof. table_cases req. Qed.

Lemma messages_table_step (now : Z) (s : Session) (req : Request) (db : Db) :
  table_step message_id_of (messages db) (next_message db)
    (messages (r_db (handle now s req db)))
    (next_message (r_db (handle now s req db))).
Proof. table_cases req. Qed.

Lemma keyed_empty : keyed empty_db.
Proof.
  constructor; split; simpl; try constructor; intros r [].
Qed.

Lemma keyed_step (now : Z) (s : Session) (req : Request) (db : Db) :
  keyed db -> keyed (r_db (handle now s req db)).
Proof.
  intros [Hu Hp Hc Hl Hv Hm]. constructor.
  - exact (fresh_keys_step _ _ _ _ _ (users_table_step now s req db) Hu).
  - exact (fresh_keys_step _ _ _ _ _ (posts_table_step now s req db) Hp).
  - exact (fresh_keys_step _ _ _ _ _ (comments_table_step now s req db) Hc).
  - exact (fresh_keys_step _ _ _ _ _ (likes_table_step now s req db) Hl).
  - exact (fresh_keys_step _ _ _ _ _
             (conversations_table_step now s req db) Hv).
  - exact (fresh_keys_step _ _ _ _ _ (messages_table_step now s req db) Hm).
Qed.

Lemma reachable_keyed (db : Db) : reachable db -> keyed db.
Proof.
  induction 1 as [|db now s req _ IH];
    [apply keyed_empty|now apply keyed_step].
Qed.

Lemma find_by_unique_id {A : Type} (key : A -> Z) (l : list A) (x : A) :
  NoDup (map key l) -> In x l ->
  find (fun y => key y =? key x) l = Some x.
Proof.
  induction l as [|y l IH]; simpl; intros ND Hin; [contradiction|].
  inversion ND as [|k ks Hnot ND']; subst.
  destruct Hin as [->|Hin].
  - now rewrite Z.eqb_refl.
  - destruct (key y =? key x) eqn:E.
    + apply Z.eqb_eq in E. exfalso. apply Hnot. rewrite E.
      now apply in_map.
    + now apply IH.
Qed.

Lemma filter_all {A : Type} (f : A -> bool) (l : list A) :
  (forall x, In x l -> f x = true) -> filter f l = l.
Proof.
  induction l as [|x l IH]; simpl; intros H; [reflexivity|].
  rewrite (H x (or_introl eq_refl)). f_equal. apply IH. auto.
Qed.

(** X1.  In every reachable store the integer keys of each table are
    pairwise distinct and below the key the next row will get, so a user
    and a post are the rows that [get] returns for their keys. *)
Theorem primary_keys_unique (db : Db) :
  reachable db ->
  keyed db
  /\ (forall u, In u (users db) -> User_get db (user_id_of u) = Some u)
  /\ (forall p, In p (posts db) -> Post_get db (post_id_of p) = Some p).
Proof.
  intros Hr. pose proof (reachable_keyed db Hr) as Hk.
  split; [exact Hk|]. split.
  - intros u Hin. unfold User_get.
    apply (find_by_unique_id user_id_of); [|exact Hin].
    apply (keyed_users db Hk).
  - intros p Hin. unfold Post_get.
    apply (find_by_unique_id post_id_of); [|exact Hin].
    apply (keyed_posts db Hk).
Qed.

(** X2.  In a reachable store, for a logged-in user who has not liked an
    existing post, liking it and then toggling again gives back the
    [like] table as it was, and the second request answers 'Post
    unliked.'. *)
Theorem like_then_unlike_restores
    (now1 now2 : Z) (s : Session) (u pid : Z) (db : Db) :
  reachable db -> s_user_id s = Some u -> Post_get db pid <> None ->
  like_rows db u pid = [] ->
  let r1 := like_post now1 s pid db in
  let r2 := like_post now2 s pid (r_db r1) in
  likes (r_db r1) = likes db ++ [mkLike (next_like db) u pid now1]
  /\ r_flash r1 = [("Post liked!", "success")]
  /\ likes (r_db r2) = likes db
  /\ r_flash r2 = [("Post unliked.", "info")].
Proof.
  intros Hr Hs Hp Hnone. cbv zeta.
  pose proof (keyed_likes db (reachable_keyed db Hr)) as [_ Hlt].
  destruct (Post_get db pid) as [post|] eqn:Ep; [|contradiction].
  pose proof (Post_get_id db pid post Ep) as Hid.
  assert (Hfind : existing_like db u pid = None)
    by (apply filter_nil_find; exact Hnone).
  assert (E1 : like_post now1 s pid db
               = mkResult (add_like (mkLike (next_like db) u pid now1) db) s
                   [("Post liked!", "success")] (redirect ep_index)).
  { unfold like_post. rewrite Hs, Ep, Hid, Hfind. reflexivity. }
  rewrite E1. cbn [r_db r_flash]. split; [reflexivity|].
  split; [reflexivity|].
  unfold like_post. rewrite Hs.
  unfold Post_get. cbn [posts add_like]. fold (Post_get db pid).
  rewrite Ep, Hid. unfold existing_like. cbn [likes add_like].
  unfold existing_like in Hfind.
  rewrite (find_snoc_none _ _ _ Hfind). cbn. rewrite !Z.eqb_refl. cbn.
  split; [|reflexivity].
  unfold delete_by_key. rewrite filter_app. cbn. rewrite Z.eqb_refl. cbn.
  rewrite app_nil_r. apply filter_all.
  intros l Hin. specialize (Hlt l Hin).
  destruct (like_id_of l =? next_like db) eqn:E; [lia|reflexivity].
Qed.

End Werkzeug.

Lemma primary_keys_unique_witness :
  User_get demo_db (user_id_of carol) = Some carol
  /\ Post_get demo_db (post_id_of bob_post) = Some bob_post.
Proof.
  destruct (primary_keys_unique demo_hash demo_check demo_db)
    as (_ & Hu & Hp); [apply reachable_run; constructor|].
  split; [apply Hu|apply Hp]; vm_compute; auto.
Defined.

Lemma like_then_unlike_restores_witness :
  likes (r_db (like_post 21 (session_of alice) 2
                 (r_db (like_post 20 (session_of alice) 2 demo_db))))
  = likes demo_db.
Proof.
  apply (like_then_unlike_restores demo_hash demo_check 20 21
           (session_of alice) 1 2 demo_db);
    [apply reachable_run; constructor|reflexivity|discriminate|reflexivity].
Defined.

End Keys.

(** ** Integers in the range of the store *)

Module Ranges.
Import Model Query Http App Routes Props Integrity.

Lemma in_int64_dec (z : Z) :
  (- 2 ^ 63 <=? z) && (z <? 2 ^ 63) = true -> in_int64 z.
Proof.
  intros H. apply andb_true_iff in H. unfold in_int64. lia.
Qed.

End Ranges.

(** ** Who may do what *)

Module Access.
Import Model Query Http App Routes Props Demo Integrity.
Import ListFacts Steps Invariants Keys Ranges.

Section Werkzeug.
Variable generate_password_hash : string -> string -> string.
Variable check_password_hash : string -> string -> bool.

#[local] Abbreviation handle :=
  (handle generate_password_hash check_password_hash).
#[local] Abbreviation reachable :=
  (reachable generate_password_hash check_password_hash).

(** X3.  A request whose session holds no [user_id] is redirected to the
    login page by every protected route, with the store and the session
    untouched; such a request changes the store only when it is the POST
    of a registration. *)
Theorem anonymous_requests (now : Z) (s : Session) (req : Request) (db : Db) :
  s_user_id s = None ->
  (protected req = true ->
   r_db (handle now s req db) = db
   /\ r_session (handle now s req db) = s
   /\ r_resp (handle now s req db) = redirect ep_login)
  /\ (r_db (handle now s req db) <> db ->
      exists salt form, req = ANY_register salt (Some form)).
Proof.
  intros Hs. split.
  - intros Hp. destruct req; try discriminate Hp; open_routes;
      rewrite Hs; repeat split.
  - intros Hne. destruct req;
      try (exfalso; apply Hne; open_routes; unfold load_logged_in_user;
           rewrite ?Hs; crack; reflexivity).
    destruct form as [form|]; [now exists salt, form|].
    exfalso. apply Hne. reflexivity.
Qed.

(** X4.  In a reachable store a post stays as it is, whatever the
    request, unless the request comes with the session of its author:
    nobody else can edit or delete it. *)
Theorem post_kept_unless_author
    (now : Z) (s : Session) (req : Request) (p : Post) (db : Db) :
  reachable db -> In p (posts db) ->
  s_user_id s <> Some (post_user_id p) ->
  In p (posts (r_db (handle now s req db))).
Proof.
  intros Hr Hin Hs.
  pose proof (keyed_posts db (reachable_keyed _ _ db Hr)) as [Hnodup _].
  pose proof (find_by_unique_id post_id_of (posts db) p Hnodup Hin) as Hp.
  fold (Post_get db (post_id_of p)) in Hp.
  assert (Hother : forall pid q uid,
             s_user_id s = Some uid -> Post_get db pid = Some q ->
             negb (post_user_id q =? uid) = false ->
             (post_id_of p =? post_id_of q) = false).
  { intros pid q uid Eu Eq Eo.
    destruct (post_id_of p =? post_id_of q) eqn:E; [|reflexivity].
    apply Z.eqb_eq in E. pose proof (Post_get_id db pid q Eq) as Hq.
    rewrite E, Hq, Eq in Hp. inversion Hp; subst q.
    exfalso. apply Hs. rewrite Eu. f_equal.
    apply negb_false_iff in Eo. lia. }
  destruct req; open_routes; crack; simpl; try assumption;
    try (apply in_or_app; now left).
  all: match goal with
       | Hq : Post_get _ _ = Some _, Ho : negb _ = false |- _ =>
           pose proof (Hother _ _ _ eq_refl Hq Ho) as Hne
       end.
  all: first
         [ apply in_map_iff; exists p; rewrite Hne; now split
         | unfold delete_by_key; apply filter_In; split; [exact Hin|];
           simpl; now rewrite Hne ].
Qed.

(** X5.  For a logged-in user and integers in the range of the store,
    a request that names a post, a user name or a user that the store
    does not hold is answered by 404 and changes nothing: this holds for
    editing, deleting, commenting and liking a post, for following,
    unfollowing and showing a profile, and for opening a conversation. *)
Theorem missing_target_404
    (now : Z) (s : Session) (uid : Z) (db : Db) :
  s_user_id s = Some uid -> in_int64 uid ->
  (forall pid form text,
      in_int64 pid ->
      (forall p, In p (posts db) -> post_id_of p <> pid) ->
      edit_post s pid form db = mkResult db s [] abort_404
      /\ delete_post s pid db = mkResult db s [] abort_404
      /\ add_comment now s pid text db = mkResult db s [] abort_404
      /\ like_post now s pid db = mkResult db s [] abort_404)
  /\ (forall name,
         (forall u, In u (users db) -> username u <> name) ->
         follow_user now s name db = mkResult db s [] abort_404
         /\ unfollow_user s name db = mkResult db s [] abort_404
         /\ profile s name db = mkResult db s [] abort_404)
  /\ (forall other form,
         in_int64 other ->
         (forall u, In u (users db) -> user_id_of u <> other) ->
         conversation now s other form db = mkResult db s [] abort_404).
Proof.
  intros Hs _. split; [|split].
  - intros pid form text _ Hmissing.
    assert (Hp : Post_get db pid = None).
    { unfold Post_get.
      destruct (find _ (posts db)) as [p|] eqn:E; [|reflexivity].
      apply find_some in E. destruct E as [Hin E].
      apply Z.eqb_eq in E. now destruct (Hmissing p Hin). }
    unfold edit_post, delete_post, add_comment, like_post.
    rewrite Hs, Hp. repeat split.
  - intros name Hname.
    assert (E : User_by_username db name = None).
    { unfold User_by_username.
      destruct (find _ (users db)) as [u|] eqn:E; [|reflexivity].
      apply find_some in E. destruct E as [Hin E].
      apply String.eqb_eq in E. now destruct (Hname u Hin). }
    unfold follow_user, unfollow_user, profile. rewrite Hs, E.
    repeat split.
  - intros other form _ Hother.
    assert (E : User_get db other = None).
    { unfold User_get.
      destruct (find _ (users db)) as [u|] eqn:E; [|reflexivity].
      apply find_some in E. destruct E as [Hin E].
      apply Z.eqb_eq in E. now destruct (Hother u Hin). }
    unfold conversation. rewrite Hs, E. reflexivity.
Qed.

End Werkzeug.

Lemma anonymous_requests_witness :
  r_resp (handle demo_hash demo_check 60 anonymous (POST_delete_post 1)
            demo_db)
  = redirect ep_login
  /\ r_db (handle demo_hash demo_check 60 anonymous (POST_delete_post 1)
             demo_db)
     = demo_db.
Proof.
  destruct (anonymous_requests demo_hash demo_check 60 anonymous
              (POST_delete_post 1) demo_db eq_refl) as [Hp _].
  destruct (Hp eq_refl) as (Hdb & _ & Hresp). now split.
Defined.

Lemma post_kept_unless_author_witness :
  In bob_post
    (posts (r_db (handle demo_hash demo_check 60 (session_of alice)
                    (POST_delete_post 1) demo_db))).
Proof.
  apply (post_kept_unless_author demo_hash demo_check 60 (session_of alice)
           (POST_delete_post 1) bob_post demo_db).
  - apply reachable_run. constructor.
  - vm_compute. auto.
  - discriminate.
Defined.

Lemma missing_target_404_witness :
  like_post 60 (session_of alice) 9 demo_db
  = mkResult demo_db (session_of alice) [] abort_404
  /\ follow_user 60 (session_of alice) "dave" demo_db
     = mkResult demo_db (session_of alice) [] abort_404
  /\ conversation 60 (session_of alice) 7 (Some "Hello") demo_db
     = mkResult demo_db (session_of alice) [] abort_404.
Proof.
  destruct (missing_target_404 60 (session_of alice) 1 demo_db eq_refl)
    as (Hpost & Hname & Huser);
    [apply in_int64_dec; reflexivity|].
  split; [|split].
  - apply (Hpost 9 None ""%string); [apply in_int64_dec; reflexivity|].
    intros p [<-|[<-|[<-|[]]]]; discriminate.
  - apply (Hname "dave"%string).
    intros u [<-|[<-|[<-|[]]]]; discriminate.
  - apply (Huser 7 (Some "Hello"%string));
      [apply in_int64_dec; reflexivity|].
    intros u [<-|[<-|[<-|[]]]]; discriminate.
Defined.

End Access.

(** ** Accounts and sessions *)

Module Accounts.
Import Model Query Http App Routes Props Demo Integrity.
Import ListFacts Steps Invariants Keys.

Lemma User_by_username_none (db : Db) (name : string) :
  (forall u, In u (users db) -> username u <> name) ->
  User_by_username db name = None.
Proof.
  intros H. unfold User_by_username.
  destruct (find _ (users db)) as [u|] eqn:E; [|reflexivity].
  apply find_some in E. destruct E as [Hin E].
  apply String.eqb_eq in E. now destruct (H u Hin).
Qed.

Section Werkzeug.
Variable generate_password_hash : string -> string -> string.
Variable check_password_hash : string -> string -> bool.

#[local] Abbreviation handle :=
  (handle generate_password_hash check_password_hash).
#[local] Abbreviation reachable :=
  (reachable generate_password_hash check_password_hash).
#[local] Abbreviation run :=
  (run generate_password_hash check_password_hash).
#[local] Abbreviation register := (register generate_password_hash).
#[local] Abbreviation login := (login check_password_hash).

(** A request keeps every user: the row may change, its key, its name
    and its password hash do not. *)
Lemma users_kept (now : Z) (s : Session) (req : Request) (db : Db)
    (u : User) :
  In u (users db) ->
  exists u', In u' (users (r_db (handle now s req db)))
             /\ user_id_of u' = user_id_of u
             /\ username u' = username u
             /\ password_hash u' = password_hash u.
Proof.
  intros Hin.
  destruct req; open_routes; crack; simpl;
    first
      [ now exists u
      | exists u; split; [apply in_or_app; now left|auto]
      | eexists; split;
        [apply in_map_iff; exists u; split; [reflexivity|exact Hin]|];
        simpl; destruct (user_id_of u =? _); auto ].
Qed.

Lemma authentic_kept (now : Z) (s s' : Session) (req : Request) (db : Db) :
  authentic db s -> authentic (r_db (handle now s' req db)) s.
Proof.
  intros [->|(u & Hin & ->)]; [now left|]. right.
  destruct (users_kept now s' req db u Hin) as (u' & Hin' & Eid & Ename & _).
  exists u'. split; [exact Hin'|]. unfold session_of.
  now rewrite Eid, Ename.
Qed.

(** The session a request leaves: the one it came with, the empty one,
    or that of a user of the store. *)
Lemma session_written (now : Z) (s : Session) (req : Request) (db : Db) :
  r_session (handle now s req db) = s
  \/ r_session (handle now s req db) = anonymous
  \/ (exists u, In u (users db)
                /\ r_session (handle now s req db) = session_of u).
Proof.
  destruct req; open_routes; crack; simpl; auto.
  right; right.
  match goal with H : User_by_username _ _ = Some ?u |- _ =>
    exists u; split; [|reflexivity];
    unfold User_by_username in H; now apply find_some in H end.
Qed.

(** X6.  Registering a name that a user of the store has flashes
    'Username already exists...' and changes nothing; registering a name
    that no user has appends one user under the next key, with the hash of
    the password, no bio and the default picture, and that user is then
    the one found under the name.  In every reachable store the names of
    the users are pairwise distinct. *)
Theorem register_unique_usernames
    (salt : string) (s : Session) (name password : string) (db : Db) :
  reachable db ->
  let r := register salt s (Some (name, password)) db in
  let new_user :=
    mkUser (next_user db) name (generate_password_hash salt password) None
      (Some "/static/images/default_profile.png") in
  ((exists u, In u (users db) /\ username u = name) ->
   r = mkResult db s
         [("Username already exists. Please choose a different one.",
           "danger")] render_register)
  /\ ((forall u, In u (users db) -> username u <> name) ->
      users (r_db r) = users db ++ [new_user]
      /\ r_resp r = redirect ep_login
      /\ User_by_username (r_db r) name = Some new_user)
  /\ NoDup (map username (users db))
  /\ NoDup (map username (users (r_db r))).
Proof.
  intros Hr. cbv zeta. split; [|split; [|split]].
  - intros (u & Hin & Hname). unfold Routes.register.
    destruct (User_by_username db name) as [v|] eqn:E; [reflexivity|].
    unfold User_by_username in E.
    pose proof (find_none _ _ E u Hin) as F. simpl in F.
    rewrite Hname, String.eqb_refl in F. discriminate.
  - intros Hfresh. pose proof (User_by_username_none db name Hfresh) as E.
    unfold Routes.register. rewrite E. cbn.
    repeat split. unfold User_by_username in *. cbn.
    rewrite (find_snoc_none _ _ _ E). cbn.
    now rewrite String.eqb_refl.
  - apply wf_usernames. exact (reachable_well_formed _ _ db Hr).
  - apply wf_usernames.
    apply (reachable_well_formed generate_password_hash check_password_hash).
    exact (reachable_step _ _ db 0 s
             (ANY_register salt (Some (name, password))) Hr).
Qed.

(** X7.  When the password verifies against the hash that registration
    stores for it, a user who has registered under a free name can log
    in with that name and password: the session then holds the new
    user's key and name. *)
Theorem register_then_login
    (salt : string) (s s' : Session) (name password : string) (db : Db) :
  check_password_hash (generate_password_hash salt password) password = true ->
  (forall u, In u (users db) -> username u <> name) ->
  let db' := r_db (register salt s (Some (name, password)) db) in
  login s' (Some (name, password)) db'
  = mkResult db' (mkSession (Some (next_user db)) (Some name))
      [("Logged in successfully!", "success")] (redirect ep_index).
Proof.
  intros Hck Hfresh. cbv zeta.
  pose proof (User_by_username_none db name Hfresh) as E.
  unfold Routes.register. rewrite E. cbn [r_db].
  unfold Routes.login, check_password, User_by_username in *.
  cbn [users add_user].
  rewrite (find_snoc_none _ _ _ E). cbn.
  rewrite String.eqb_refl. cbn. now rewrite Hck.
Qed.

(** X8.  No run of requests deletes or renames a user or changes a
    password hash: a user of the store is, after any run, still there
    under the same key, name and hash. *)
Theorem users_never_removed
    (trace : list (Z * Session * Request)) (db : Db) (u : User) :
  In u (users db) ->
  exists u', In u' (users (run trace db))
             /\ user_id_of u' = user_id_of u
             /\ username u' = username u
             /\ password_hash u' = password_hash u.
Proof.
  revert db u. induction trace as [|[[now s] req] trace IH]; simpl;
    intros db u Hin; [now exists u|].
  destruct (users_kept now s req db u Hin) as (v & Hv & Eid & Ename & Eh).
  destruct (IH _ v Hv) as (w & Hw & Eid' & Ename' & Eh').
  exists w. repeat split; congruence.
Qed.

(** X9.  Only [login] and [logout] write the session: every other
    request leaves the session it came with; a POST of [login] leaves it
    too and flashes 'Invalid username or password.', unless it writes the
    key and name of a user of the store who has the submitted name and
    whose hash the password verifies against; a GET of [login] leaves
    it; [logout] empties it.  So the session that a request leaves is
    one the application has issued whenever the session it came with
    was; and an issued session stays issued after any request of
    anybody. *)
Theorem sessions_stay_authentic
    (now : Z) (s : Session) (req : Request) (db : Db) :
  (((forall form, req <> ANY_login form) -> req <> GET_logout ->
    r_session (handle now s req db) = s)
   /\ (forall name password,
          req = ANY_login (Some (name, password)) ->
          (r_session (handle now s req db) = s
           /\ r_flash (handle now s req db)
              = [("Invalid username or password.", "danger")])
          \/ (exists u, In u (users db) /\ username u = name
                        /\ check_password_hash (password_hash u) password
                           = true
                        /\ r_session (handle now s req db) = session_of u))
   /\ (req = ANY_login None -> r_session (handle now s req db) = s)
   /\ (req = GET_logout -> r_session (handle now s req db) = anonymous))
  /\ (authentic db s ->
      authentic (r_db (handle now s req db))
        (r_session (handle now s req db))
      /\ (forall now' s' req',
             authentic (r_db (handle now' s' req' db)) s)
      /\ r_session (handle now s GET_logout db) = anonymous).
Proof.
  split; [split; [|split; [|split]]|].
  - intros Hlogin Hlogout.
    destruct req; try (open_routes; crack; reflexivity).
    + now destruct (Hlogin form).
    + now destruct Hlogout.
  - intros name password ->. cbn [Routes.handle]. unfold Routes.login.
    destruct (User_by_username db name) as [u|] eqn:E; [|left; now split].
    unfold check_password.
    destruct (check_password_hash (password_hash u) password) eqn:Hck;
      [|left; now split].
    right. exists u. unfold User_by_username in E. apply find_some in E.
    destruct E as [Hin Hname]. apply String.eqb_eq in Hname.
    repeat split; assumption.
  - intros ->. reflexivity.
  - intros ->. reflexivity.
  - intros Ha. split; [|split].
    + destruct (session_written now s req db) as [E|[E|(u & Hin & E)]];
        rewrite E.
      * now apply authentic_kept.
      * now left.
      * apply (authentic_kept now (session_of u) s req db).
        right. now exists u.
    + intros now' s' req'. now apply authentic_kept.
    + reflexivity.
Qed.

End Werkzeug.

Lemma register_unique_usernames_witness :
  register demo_hash "na" anonymous (Some ("bob", "hammer")) demo_db
  = mkResult demo_db anonymous
      [("Username already exists. Please choose a different one.", "danger")]
      render_register.
Proof.
  destruct (register_unique_usernames demo_hash demo_check "na" anonymous
              "bob" "hammer" demo_db) as (Htaken & _);
    [apply reachable_run; constructor|].
  apply Htaken. exists bob. split; [vm_compute; auto|reflexivity].
Defined.

Lemma register_then_login_witness :
  r_session
    (login demo_check anonymous (Some ("dave", "diver"))
       (r_db (register demo_hash "na" anonymous (Some ("dave", "diver"))
                demo_db)))
  = mkSession (Some 4) (Some "dave").
Proof.
  rewrite (register_then_login demo_hash demo_check "na" anonymous anonymous
             "dave" "diver" demo_db).
  - reflexivity.
  - reflexivity.
  - intros u [<-|[<-|[<-|[]]]]; discriminate.
Defined.

Lemma users_never_removed_witness :
  exists u', In u' (users (run demo_hash demo_check
                             [(70, session_of alice,
                               ANY_edit_profile (Some ("Tea", "")))]
                             demo_db))
             /\ user_id_of u' = 1 /\ username u' = "alice"
             /\ password_hash u' = "na$wonderland".
Proof.
  apply (users_never_removed demo_hash demo_check _ demo_db alice).
  vm_compute. auto.
Defined.

Lemma sessions_stay_authentic_witness :
  authentic demo_db
    (r_session (handle demo_hash demo_check 70 anonymous
                  (ANY_login (Some ("carol", "singer"))) demo_db))
  /\ r_session (handle demo_hash demo_check 70 (session_of alice)
                  (GET_profile "bob") demo_db)
     = session_of alice
  /\ r_session (handle demo_hash demo_check 70 (session_of alice)
                  (ANY_conversation 2 (Some "Hello")) demo_db)
     = session_of alice.
Proof.
  destruct (sessions_stay_authentic demo_hash demo_check 70 anonymous
              (ANY_login (Some ("carol", "singer"))) demo_db)
    as [_ Hissued].
  destruct (sessions_stay_authentic demo_hash demo_check 70
              (session_of alice) (GET_profile "bob") demo_db)
    as [(Hprofile & _) _].
  destruct (sessions_stay_authentic demo_hash demo_check 70
              (session_of alice) (ANY_conversation 2 (Some "Hello"))
              demo_db)
    as [(Hconv & _) _].
  split; [|split].
  - apply Hissued. now left.
  - apply Hprofile; [intros form|]; discriminate.
  - apply Hconv; [intros form|]; discriminate.
Defined.

End Accounts.

(** ** Posts: deleting, editing, publishing, listing *)

Module Posts.
Import Model Query Http App Routes Props Demo Integrity.
Import ListFacts Steps Invariants Keys.

Lemma unique_key_injective {A : Type} (key : A -> Z) (l : list A) (x y : A) :
  NoDup (map key l) -> In x l -> In y l -> key x = key y -> x = y.
Proof.
  intros Hnd Hx Hy E.
  pose proof (find_by_unique_id key l x Hnd Hx) as Fx.
  pose proof (find_by_unique_id key l y Hnd Hy) as Fy.
  rewrite E in Fx. congruence.
Qed.

(** Deleting the rows [victims] of a table by key removes them and, when
    keys are unique, nothing else. *)
Lemma delete_by_key_in {A : Type} (key : A -> Z) (victims rows : list A)
    (x : A) :
  NoDup (map key rows) -> (forall v, In v victims -> In v rows) ->
  (In x (delete_by_key key victims rows) <-> In x rows /\ ~ In x victims).
Proof.
  intros Hnd Hsub. unfold delete_by_key. rewrite filter_In. split.
  - intros [Hin Hneg]. split; [exact Hin|]. intros Hv.
    apply negb_true_iff in Hneg.
    assert (existsb (fun v => key x =? key v) victims = true)
      by (apply existsb_exists; exists x; split; [exact Hv|lia]).
    congruence.
  - intros [Hin Hnot]. split; [exact Hin|]. apply negb_true_iff.
    destruct (existsb (fun v => key x =? key v) victims) eqn:E;
      [|reflexivity].
    apply existsb_exists in E. destruct E as (v & Hv & E).
    apply Z.eqb_eq in E.
    rewrite (unique_key_injective key rows x v Hnd Hin (Hsub v Hv) E)
      in Hnot. contradiction.
Qed.

Lemma newest_post_first (l : list Post) (p : Post) :
  (forall q, In q l -> post_created_at q < post_created_at p) ->
  order_by created_at_desc (l ++ [p]) = p :: order_by created_at_desc l.
Proof.
  induction l as [|x l IH]; intros H; [reflexivity|].
  cbn [app order_by fold_right]. fold (order_by created_at_desc (l ++ [p])).
  fold (order_by created_at_desc l).
  rewrite IH by (intros q Hq; apply H; now right).
  cbn [insert_by]. unfold created_at_desc at 1.
  specialize (H x (or_introl eq_refl)).
  destruct (post_created_at p <=? post_created_at x) eqn:E; [lia|].
  reflexivity.
Qed.

Section Werkzeug.
Variable generate_password_hash : string -> string -> string.
Variable check_password_hash : string -> string -> bool.

#[local] Abbreviation reachable :=
  (reachable generate_password_hash check_password_hash).

(** X10.  In a reachable store, when its author deletes a post, the post
    is gone together with all of its comments and likes, and nothing
    else goes: the other posts, the comments and likes of other posts
    and the other tables are as before.  For anyone else the request
    flashes 'You are not authorized to delete this post.' and changes
    nothing. *)
Theorem delete_post_cascade (s : Session) (uid pid : Z) (p : Post) (db : Db) :
  reachable db -> s_user_id s = Some uid -> Post_get db pid = Some p ->
  let r := delete_post s pid db in
  (uid = post_user_id p ->
   r_flash r = [("Post deleted successfully!", "success")]
   /\ (forall q, In q (posts (r_db r))
                 <-> In q (posts db) /\ post_id_of q <> pid)
   /\ (forall c, In c (comments (r_db r))
                 <-> In c (comments db) /\ comment_post_id c <> pid)
   /\ (forall l, In l (likes (r_db r))
                 <-> In l (likes db) /\ like_post_id l <> pid)
   /\ users (r_db r) = users db /\ follows (r_db r) = follows db
   /\ conversations (r_db r) = conversations db
   /\ messages (r_db r) = messages db)
  /\ (uid <> post_user_id p ->
      r = mkResult db s
            [("You are not authorized to delete this post.", "danger")]
            (redirect ep_index)).
Proof.
  intros Hr Hs Hp. cbv zeta.
  pose proof (reachable_keyed _ _ db Hr) as Hk.
  pose proof (Post_get_id db pid p Hp) as Hid.
  pose proof (find_some _ _ Hp) as [Hin _].
  unfold delete_post. rewrite Hs, Hp. split.
  - intros ->. rewrite Z.eqb_refl. cbn [negb].
    assert (Hdb : forall t : Response,
               r_db (mkResult (delete_post_rows p db) s
                       [("Post deleted successfully!", "success")] t)
               = delete_post_rows p db) by reflexivity.
    rewrite Hdb. unfold delete_post_rows.
    cbn [posts comments likes users follows conversations messages
         set_posts set_comments set_likes r_flash].
    split; [reflexivity|]. split; [|split; [|split]].
    + intros q.
      rewrite (delete_by_key_in post_id_of [p] (posts db) q
                 (proj1 (keyed_posts db Hk)))
        by (intros v [<-|[]]; exact Hin).
      split.
      * intros [Hq Hnot]. split; [exact Hq|]. intros E.
        apply Hnot. left.
        apply (unique_key_injective post_id_of (posts db) p q
                 (proj1 (keyed_posts db Hk)) Hin Hq). lia.
      * intros [Hq Hne]. split; [exact Hq|].
        intros [<-|[]]. lia.
    + intros c.
      rewrite (delete_by_key_in comment_id_of _ (comments db) c
                 (proj1 (keyed_comments db Hk)))
        by (intros v Hv; now apply filter_In in Hv).
      rewrite filter_In, Hid. split.
      * intros [Hc Hnot]. split; [exact Hc|]. intros E. apply Hnot.
        split; [exact Hc|lia].
      * intros [Hc Hne]. split; [exact Hc|]. intros [_ E]. lia.
    + intros l.
      rewrite (delete_by_key_in like_id_of _ (likes db) l
                 (proj1 (keyed_likes db Hk)))
        by (intros v Hv; now apply filter_In in Hv).
      rewrite filter_In, Hid. split.
      * intros [Hl Hnot]. split; [exact Hl|]. intros E. apply Hnot.
        split; [exact Hl|lia].
      * intros [Hl Hne]. split; [exact Hl|]. intros [_ E]. lia.
    + repeat split.
  - intros Hne.
    destruct (post_user_id p =? uid) eqn:E; [lia|reflexivity].
Qed.

(** X11.  In a reachable store, when its author edits a post, the post
    gets the submitted image and caption and keeps its key, author and
    time of creation; the other posts and the other tables are as
    before.  For anyone else the request flashes 'You are not authorized
    to edit this post.' and changes nothing. *)
Theorem edit_post_frame
    (s : Session) (uid pid : Z) (p : Post) (image text : string) (db : Db) :
  reachable db -> s_user_id s = Some uid -> Post_get db pid = Some p ->
  let r := edit_post s pid (Some (image, text)) db in
  (uid = post_user_id p ->
   Post_get (r_db r) pid
   = Some (mkPost pid image (Some text) (post_user_id p)
             (post_created_at p))
   /\ (forall q, post_id_of q <> pid ->
                 (In q (posts (r_db r)) <-> In q (posts db)))
   /\ List.length (posts (r_db r)) = List.length (posts db)
   /\ users (r_db r) = users db /\ comments (r_db r) = comments db
   /\ likes (r_db r) = likes db)
  /\ (uid <> post_user_id p ->
      r = mkResult db s
            [("You are not authorized to edit this post.", "danger")]
            (redirect ep_index)).
Proof.
  intros Hr Hs Hp. cbv zeta.
  pose proof (Post_get_id db pid p Hp) as Hid.
  unfold edit_post. rewrite Hs, Hp. split.
  - intros ->. rewrite Z.eqb_refl. cbn [negb r_db].
    cbn [posts comments likes users set_posts]. rewrite Hid.
    split; [|split; [|split]].
    + unfold Post_get in *. cbn [posts].
      induction (posts db) as [|x l IH]; cbn in *; [discriminate|].
      destruct (post_id_of x =? pid) eqn:E.
      * inversion Hp; subst x. cbn. rewrite E. now rewrite Hid.
      * cbn. rewrite E. now apply IH.
    + intros q Hq. rewrite in_map_iff. split.
      * intros (x & <- & Hx).
        destruct (post_id_of x =? pid) eqn:E; [simpl in Hq; lia|exact Hx].
      * intros Hin. exists q. split; [|exact Hin].
        destruct (post_id_of q =? pid) eqn:E; [lia|reflexivity].
    + apply length_map.
    + repeat split.
  - intros Hne.
    destruct (post_user_id p =? uid) eqn:E; [lia|reflexivity].
Qed.

(** X12.  A post published at a time later than that of every post of
    the store is the first on page 1 of the index, for whoever is
    logged in; it carries the author of the session, the submitted image
    and caption and the next key. *)
Theorem create_post_tops_index
    (now : Z) (s s' : Session) (uid uid' : Z) (image text : string)
    (db : Db) :
  s_user_id s = Some uid -> s_user_id s' = Some uid' ->
  (forall q, In q (posts db) -> post_created_at q < now) ->
  let db' := r_db (create_post now s (Some (image, text)) db) in
  hd_error (resp_posts (r_resp (index s' 1 db')))
  = Some (mkPost (next_post db) image (Some text) uid now).
Proof.
  intros Hs Hs' Hnew. cbv zeta. unfold create_post, index.
  rewrite Hs, Hs'. cbn [r_db r_resp resp_posts posts add_post].
  rewrite newest_post_first by exact Hnew.
  reflexivity.
Qed.

(** X13.  In a reachable store the profile of a user shows that user's
    row and exactly that user's posts, newest first. *)
Theorem profile_posts (s : Session) (u : User) (db : Db) :
  reachable db -> In u (users db) ->
  exists shown,
    r_resp (profile s (username u) db)
    = render_profile u shown (load_logged_in_user db s)
    /\ (forall p, In p shown
                  <-> In p (posts db) /\ post_user_id p = user_id_of u)
    /\ NoDup (map post_id_of shown)
    /\ newest_first shown.
Proof.
  intros Hr Hin. unfold profile.
  rewrite (reachable_user_by_username _ _ db u Hr Hin).
  eexists. split; [reflexivity|]. split; [|split].
  - intros p. rewrite (order_by_in created_at_desc), filter_In.
    rewrite Z.eqb_eq. reflexivity.
  - pose proof (proj1 (keyed_posts db (reachable_keyed _ _ db Hr))) as Hnd.
    eapply Permutation_NoDup;
      [apply Permutation_map; apply order_by_perm|].
    clear - Hnd. induction (posts db) as [|x l IH]; simpl; [constructor|].
    inversion Hnd as [|k ks Hnot Hnd']; subst.
    destruct (post_user_id x =? user_id_of u); simpl; [|now apply IH].
    constructor; [|now apply IH]. intros Hx. apply Hnot.
    apply in_map_iff in Hx. destruct Hx as (y & Ey & Hy).
    apply filter_In in Hy. apply in_map_iff. exists y. tauto.
  - apply order_by_newest_first.
Qed.

End Werkzeug.

Lemma delete_post_cascade_witness :
  r_flash (delete_post (session_of bob) 1 demo_db)
  = [("Post deleted successfully!", "success")]
  /\ delete_post (session_of alice) 1 demo_db
     = mkResult demo_db (session_of alice)
         [("You are not authorized to delete this post.", "danger")]
         (redirect ep_index).
Proof.
  assert (Hr : reachable demo_hash demo_check demo_db)
    by (apply reachable_run; constructor).
  destruct (delete_post_cascade demo_hash demo_check (session_of bob) 2 1
              bob_post demo_db Hr eq_refl eq_refl) as [Hown _].
  destruct (delete_post_cascade demo_hash demo_check (session_of alice) 1 1
              bob_post demo_db Hr eq_refl eq_refl) as [_ Hother].
  split; [apply Hown; reflexivity|apply Hother; discriminate].
Defined.

Lemma edit_post_frame_witness :
  Post_get
    (r_db (edit_post (session_of bob) 1 (Some ("/img/cat2.png", "Cats!"))
             demo_db)) 1
  = Some (mkPost 1 "/img/cat2.png" (Some "Cats!") 2 10).
Proof.
  assert (Hr : reachable demo_hash demo_check demo_db)
    by (apply reachable_run; constructor).
  destruct (edit_post_frame demo_hash demo_check (session_of bob) 2 1
              bob_post "/img/cat2.png" "Cats!" demo_db Hr eq_refl eq_refl)
    as [Hown _].
  apply Hown. reflexivity.
Defined.

Lemma create_post_tops_index_witness :
  hd_error
    (resp_posts
       (r_resp (index (session_of alice) 1
                  (r_db (create_post 14 (session_of bob)
                           (Some ("/img/dog.png", "Dogs too")) demo_db)))))
  = Some (mkPost 4 "/img/dog.png" (Some "Dogs too") 2 14).
Proof.
  apply (create_post_tops_index 14 (session_of bob) (session_of alice) 2 1
           "/img/dog.png" "Dogs too" demo_db eq_refl eq_refl).
  intros q [<-|[<-|[<-|[]]]]; reflexivity.
Defined.

Lemma profile_posts_witness :
  exists shown,
    r_resp (profile anonymous "carol" demo_db)
    = render_profile carol shown None
    /\ (forall p, In p shown <-> In p (posts demo_db) /\ post_user_id p = 3)
    /\ NoDup (map post_id_of shown)
    /\ newest_first shown.
Proof.
  apply (profile_posts demo_hash demo_check anonymous carol demo_db).
  - apply reachable_run. constructor.
  - vm_compute. auto.
Defined.

End Posts.

(** ** Pages of the index *)

Module Paging.
Import Model Query Http App Routes Props Demo Integrity.
Import ListFacts Steps Invariants Keys Ranges.

Lemma firstn_plus {A : Type} (a b : nat) (l : list A) :
  firstn (a + b) l = firstn a l ++ firstn b (skipn a l).
Proof.
  revert l. induction a as [|a IH]; intros l; [reflexivity|].
  destruct l as [|x l]; simpl.
  - now destruct b.
  - now rewrite IH.
Qed.

Lemma pages_upto_firstn (rows : list Post) (n : nat) :
  pages_upto rows n = firstn (10 * n) rows.
Proof.
  induction n as [|n IH]; [reflexivity|].
  cbn [pages_upto]. rewrite IH. unfold page_of.
  replace (Z.to_nat (10 * (Z.of_nat (S n) - 1))) with (10 * n)%nat by lia.
  rewrite <- firstn_plus. f_equal. lia.
Qed.

(** X14.  For a logged-in user and a page whose offset is an integer of
    the store, the index cuts all the posts, newest first, into pages of
    ten: pages 1 to [n] in a row are the first [10 * n] posts, so they
    are all the posts once [10 * n] reaches their number; the answer
    tells the number of posts; a page number below 1 gives the answer of
    page 1; and a page beyond the last post is shown empty, not answered
    by 404. *)
Theorem index_pages (s : Session) (uid page : Z) (n : nat) (db : Db) :
  s_user_id s = Some uid -> in_int64 uid ->
  in_int64 ((Z.max 1 page - 1) * 10) ->
  let all_posts := order_by created_at_desc (posts db) in
  r_resp (index s page db)
  = render_index (page_of all_posts (Z.max 1 page))
      (load_logged_in_user db s)
      (Some (mkPagination (Z.max 1 page) 10
               (Z.of_nat (List.length (posts db)))
               (page_of all_posts (Z.max 1 page))))
  /\ pages_upto all_posts n = firstn (10 * n) all_posts
  /\ ((List.length (posts db) <= 10 * n)%nat ->
      pages_upto all_posts n = all_posts)
  /\ (page < 1 -> index s page db = index s 1 db)
  /\ (Z.of_nat (List.length (posts db)) <= 10 * (page - 1) ->
      resp_posts (r_resp (index s page db)) = []).
Proof.
  intros Hs _ _. cbv zeta.
  assert (Hlen : List.length (order_by created_at_desc (posts db))
                 = List.length (posts db))
    by (symmetry; apply Permutation_length, order_by_perm).
  assert (Hpage : forall pg, firstn (Z.to_nat 10)
                    (skipn (Z.to_nat (((if pg <? 1 then 1 else pg) - 1) * 10))
                       (order_by created_at_desc (posts db)))
                  = page_of (order_by created_at_desc (posts db))
                      (Z.max 1 pg)).
  { intros pg. unfold page_of. change (Z.to_nat 10) with 10%nat.
    destruct (pg <? 1) eqn:E; do 3 f_equal; lia. }
  split; [|split; [|split; [|split]]].
  - unfold index, paginate. rewrite Hs. cbn [r_resp pg_items].
    rewrite Hpage, Hlen.
    replace (if page <? 1 then 1 else page) with (Z.max 1 page)
      by (destruct (page <? 1) eqn:E; lia).
    reflexivity.
  - apply pages_upto_firstn.
  - intros Hle. rewrite pages_upto_firstn. apply firstn_all2. lia.
  - intros Hlt. unfold index, paginate. rewrite Hs.
    replace (page <? 1) with true by (symmetry; apply Z.ltb_lt; lia).
    reflexivity.
  - intros Hbeyond. unfold index, paginate. rewrite Hs.
    cbn [r_resp resp_posts pg_items]. rewrite Hpage. unfold page_of.
    rewrite skipn_all2; [reflexivity|]. lia.
Qed.

Lemma index_pages_witness :
  index (session_of alice) 0 demo_db = index (session_of alice) 1 demo_db
  /\ resp_posts (r_resp (index (session_of alice) 2 demo_db)) = []
  /\ pages_upto (order_by created_at_desc (posts demo_db)) 1
     = [alice_post; carol_post; bob_post].
Proof.
  assert (Huid : in_int64 1) by (apply in_int64_dec; reflexivity).
  destruct (index_pages (session_of alice) 1 0 1 demo_db eq_refl Huid)
    as (_ & _ & Hall & Hlow & _); [apply in_int64_dec; reflexivity|].
  destruct (index_pages (session_of alice) 1 2 0 demo_db eq_refl Huid)
    as (_ & _ & _ & _ & Hbeyond); [apply in_int64_dec; reflexivity|].
  split; [|split].
  - apply Hlow. lia.
  - apply Hbeyond. vm_compute. discriminate.
  - rewrite Hall; [reflexivity|]. vm_compute. lia.
Defined.

End Paging.

(** ** Unfollowing *)

Module Unfollow.
Import Model Query Http App Routes Props Demo Integrity.
Import ListFacts Steps Invariants Keys.

Lemma filter_out_filter {A : Type} (f : A -> bool) (l : list A) :
  filter f (filter (fun x => negb (f x)) l) = [].
Proof.
  induction l as [|x l IH]; simpl; [reflexivity|].
  destruct (f x) eqn:E; simpl; [exact IH|]. now rewrite E.
Qed.

(** X15.  For a logged-in user [a] and the name of a user [b]: a request
    of [a] to unfollow [a] flashes 'You cannot unfollow yourself!' and
    changes nothing; a request to unfollow another user [b] leaves no
    edge from [a] to [b] and keeps every other edge; and following [b],
    when [a] did not follow [b], then unfollowing [b] gives back the
    store as it was. *)
Theorem unfollow_removes_edge
    (now : Z) (s : Session) (uid : Z) (a b : User) (name : string)
    (db : Db) :
  s_user_id s = Some uid -> User_get db uid = Some a ->
  User_by_username db name = Some b ->
  (user_id_of b = uid ->
   unfollow_user s name db
   = mkResult db s [("You cannot unfollow yourself!", "danger")]
       (redirect (ep_profile name)))
  /\ (user_id_of b <> uid ->
      let db' := r_db (unfollow_user s name db) in
      follow_rows db' uid (user_id_of b) = []
      /\ (forall f, In f (follows db')
                    <-> In f (follows db)
                        /\ ~ (follower_id f = uid
                              /\ followed_id f = user_id_of b)))
  /\ (user_id_of b <> uid -> follow_rows db uid (user_id_of b) = [] ->
      r_db (unfollow_user s name (r_db (follow_user now s name db))) = db).
Proof.
  intros Hs Ha Hb. pose proof (User_get_id db uid a Ha) as Hid.
  split; [|split].
  - intros E. unfold unfollow_user. rewrite Hs, Hb.
    now replace (user_id_of b =? uid) with true by (symmetry; lia).
  - intros Hne. cbv zeta. unfold unfollow_user, load_logged_in_user.
    rewrite Hs, Hb, Ha.
    replace (user_id_of b =? uid) with false by (symmetry; lia).
    cbn [r_db]. unfold unfollow, followed_edge. rewrite Hid.
    destruct (find _ (follows db)) as [f|] eqn:E.
    + apply find_some in E. destruct E as [_ E].
      apply andb_true_iff in E. destruct E as [E1 E2].
      apply Z.eqb_eq in E1, E2. rewrite E1, E2.
      unfold follow_rows. cbn [follows set_follows]. split.
      * apply filter_out_filter.
      * intros g. rewrite filter_In, negb_true_iff, andb_false_iff,
          !Z.eqb_neq.
        split; (intros [H1 H2]; split; [exact H1|lia]).
    + split; [now apply find_none_filter|].
      intros g. split; [|tauto]. intros Hg. split; [exact Hg|].
      intros [E1 E2]. pose proof (find_none _ _ E g Hg) as F.
      simpl in F. lia.
  - intros Hne Hnone.
    assert (Hedge : followed_edge db a b = None).
    { unfold followed_edge. rewrite Hid. now apply filter_nil_find. }
    unfold follow_user, load_logged_in_user. rewrite Hs, Hb, Ha.
    replace (user_id_of b =? uid) with false by (symmetry; lia).
    cbn [r_db]. unfold follow, is_following. rewrite Hedge. cbn [negb].
    unfold unfollow_user, load_logged_in_user, User_by_username, User_get.
    cbn [users set_follows]. fold (User_by_username db name).
    rewrite Hs. fold (User_get db uid). rewrite Hb, Ha.
    replace (user_id_of b =? uid) with false by (symmetry; lia).
    cbn [r_db]. unfold unfollow, followed_edge in *. cbn [follows set_follows].
    rewrite (find_snoc_none _ _ _ Hedge). cbn. rewrite !Z.eqb_refl. cbn.
    rewrite filter_app. cbn. rewrite !Z.eqb_refl. cbn.
    rewrite app_nil_r, filter_all.
    + destruct db; reflexivity.
    + intros f Hf. pose proof (find_none _ _ Hedge f Hf) as F.
      simpl in F. now rewrite F.
Qed.

Lemma unfollow_removes_edge_witness :
  follow_rows (r_db (unfollow_user (session_of alice) "carol" demo_db)) 1 3
  = []
  /\ r_db (unfollow_user (session_of alice) "bob"
             (r_db (follow_user 80 (session_of alice) "bob" demo_db)))
     = demo_db.
Proof.
  destruct (unfollow_removes_edge 80 (session_of alice) 1 alice carol "carol"
              demo_db eq_refl eq_refl eq_refl) as (_ & Hgone & _).
  destruct (unfollow_removes_edge 80 (session_of alice) 1 alice bob "bob"
              demo_db eq_refl eq_refl eq_refl) as (_ & _ & Hback).
  split.
  - apply Hgone. discriminate.
  - apply Hback; [discriminate|reflexivity].
Defined.

End Unfollow.

(** ** Foreign keys *)

Module References.
Import Model Query Http App Routes Props Demo Integrity.
Import ListFacts Steps Invariants Keys Ranges.

Lemma has_user_get (db : Db) (uid : Z) :
  has_user db uid <-> exists u, User_get db uid = Some u.
Proof.
  unfold has_user, User_get. split.
  - intros (u & Hin & E).
    destruct (find (fun x => user_id_of x =? uid) (users db)) as [v|] eqn:F;
      [now exists v|].
    pose proof (find_none _ _ F u Hin) as G. simpl in G. lia.
  - intros (u & F). apply find_some in F. exists u.
    split; [tauto|lia].
Qed.

Lemma has_post_get (db : Db) (pid : Z) (p : Post) :
  Post_get db pid = Some p -> has_post db (post_id_of p).
Proof.
  unfold Post_get. intros F. apply find_some in F. exists p. tauto.
Qed.

(** The references hold in [db'] when every row that a reference of [db]
    may point to has a row of the same key in [db'], and every row of
    [db'] is a row of [db] or has its references in [db']. *)
Lemma referential_extend (db db' : Db) :
  referential db ->
  (forall uid, has_user db uid -> has_user db' uid) ->
  (forall pid, has_post db pid -> has_post db' pid) ->
  (forall cid, has_conversation db cid -> has_conversation db' cid) ->
  (forall p, In p (posts db') ->
     In p (posts db) \/ has_user db' (post_user_id p)) ->
  (forall c, In c (comments db') ->
     In c (comments db)
     \/ (has_user db' (comment_user_id c)
         /\ has_post db' (comment_post_id c))) ->
  (forall l, In l (likes db') ->
     In l (likes db)
     \/ (has_user db' (like_user_id l) /\ has_post db' (like_post_id l))) ->
  (forall f, In f (follows db') ->
     In f (follows db)
     \/ (has_user db' (follower_id f) /\ has_user db' (followed_id f))) ->
  (forall c, In c (conversations db') ->
     In c (conversations db)
     \/ (has_user db' (user1_id c) /\ has_user db' (user2_id c))) ->
  (forall m, In m (messages db') ->
     In m (messages db)
     \/ (has_user db' (message_sender_id m)
         /\ has_conversation db' (message_conversation_id m))) ->
  referential db'.
Proof.
  intros [Rp Rc Rl Rf Rv Rm] Hu Hp Hv Tp Tc Tl Tf Tv Tm. constructor.
  - intros p Hin. destruct (Tp p Hin) as [H|H]; [apply Hu; auto|exact H].
  - intros c Hin. destruct (Tc c Hin) as [H|H]; [|exact H].
    destruct (Rc c H). split; auto.
  - intros l Hin. destruct (Tl l Hin) as [H|H]; [|exact H].
    destruct (Rl l H). split; auto.
  - intros f Hin. destruct (Tf f Hin) as [H|H]; [|exact H].
    destruct (Rf f H). split; auto.
  - intros c Hin. destruct (Tv c Hin) as [H|H]; [|exact H].
    destruct (Rv c H). split; auto.
  - intros m Hin. destruct (Tm m Hin) as [H|H]; [|exact H].
    destruct (Rm m H). split; auto.
Qed.

(** The goals of [referential_extend] for a table that has lost rows,
    has kept its rows, or has got one row more. *)
Ltac kept_rows :=
  simpl; unfold delete_by_key;
  first
    [ intros ? H; exact H
    | intros ? H; left; exact H
    | intros ? H; left; apply filter_In in H; tauto
    | intros ? (x & Hx & E); exists x; split;
      [apply in_or_app; left; exact Hx|exact E] ].

Ltac new_row :=
  simpl; intros ? H; apply in_app_or in H;
  destruct H as [H|[<-|[]]]; [left; exact H|right; simpl].

Lemma referential_add_user (u : User) (db : Db) :
  referential db -> referential (add_user u db).
Proof.
  intros R. apply (referential_extend db); try exact R; kept_rows.
Qed.

Lemma referential_add_post (p : Post) (db : Db) :
  referential db -> has_user db (post_user_id p) ->
  referential (add_post p db).
Proof.
  intros R Hu. apply (referential_extend db); try exact R;
    try kept_rows.
  new_row. exact Hu.
Qed.

Lemma referential_add_comment_row (c : Comment) (db : Db) :
  referential db -> has_user db (comment_user_id c) ->
  has_post db (comment_post_id c) ->
  referential (add_comment_row c db).
Proof.
  intros R Hu Hp. apply (referential_extend db); try exact R;
    try kept_rows.
  new_row. now split.
Qed.

Lemma referential_add_like (l : Like) (db : Db) :
  referential db -> has_user db (like_user_id l) ->
  has_post db (like_post_id l) ->
  referential (add_like l db).
Proof.
  intros R Hu Hp. apply (referential_extend db); try exact R;
    try kept_rows.
  new_row. now split.
Qed.

Lemma referential_add_conversation (c : Conversation) (db : Db) :
  referential db -> has_user db (user1_id c) -> has_user db (user2_id c) ->
  referential (add_conversation c db).
Proof.
  intros R H1 H2. apply (referential_extend db); try exact R;
    try kept_rows.
  new_row. now split.
Qed.

Lemma referential_add_message (m : Message) (db : Db) :
  referential db -> has_user db (message_sender_id m) ->
  has_conversation db (message_conversation_id m) ->
  referential (add_message m db).
Proof.
  intros R Hu Hc. apply (referential_extend db); try exact R;
    try kept_rows.
  new_row. now split.
Qed.

Lemma referential_follow (now : Z) (a b : User) (db : Db) :
  referential db -> has_user db (user_id_of a) ->
  has_user db (user_id_of b) ->
  referential (follow now a b db).
Proof.
  intros R Ha Hb. unfold follow.
  destruct (negb (is_following db a b)); [|exact R].
  apply (referential_extend db); try exact R; try kept_rows.
  new_row. now split.
Qed.

Lemma referential_unfollow (a b : User) (db : Db) :
  referential db -> referential (unfollow a b db).
Proof.
  intros R. unfold unfollow. destruct (followed_edge db a b); [|exact R].
  apply (referential_extend db); try exact R; kept_rows.
Qed.

Lemma referential_set_likes_delete (victims : list Like) (db : Db) :
  referential db ->
  referential (set_likes (delete_by_key like_id_of victims (likes db)) db).
Proof.
  intros R. apply (referential_extend db); try exact R; kept_rows.
Qed.

Lemma referential_update_profile (u : User) (new_bio picture : string)
    (db : Db) :
  referential db -> referential (update_profile u new_bio picture db).
Proof.
  intros R. unfold update_profile.
  apply (referential_extend db); try exact R; try kept_rows.
  simpl. intros uid (x & Hx & E). eexists. split.
  - apply in_map_iff. exists x. split; [reflexivity|exact Hx].
  - destruct (user_id_of x =? user_id_of u); exact E.
Qed.

Lemma referential_edit_post (post : Post) (image text : string) (db : Db) :
  referential db ->
  referential
    (set_posts
       (map (fun p =>
               if post_id_of p =? post_id_of post then
                 mkPost (post_id_of p) image (Some text) (post_user_id p)
                   (post_created_at p)
               else p) (posts db)) db).
Proof.
  intros R. apply (referential_extend db); try exact R; try kept_rows.
  - simpl. intros pid (x & Hx & E). eexists. split.
    + apply in_map_iff. exists x. split; [reflexivity|exact Hx].
    + destruct (post_id_of x =? post_id_of post); exact E.
  - simpl. intros p Hin. apply in_map_iff in Hin.
    destruct Hin as (x & <- & Hx).
    destruct (post_id_of x =? post_id_of post); [|now left].
    right. simpl. exact (ref_posts db R x Hx).
Qed.

Lemma referential_delete_post_rows (post : Post) (db : Db) :
  referential db -> referential (delete_post_rows post db).
Proof.
  intros R. unfold delete_post_rows, delete_by_key.
  assert (Hkeep : forall pid, pid <> post_id_of post -> has_post db pid ->
            has_post
              (set_posts
                 (filter (fun r => negb (existsb (fun v => post_id_of r
                                                  =? post_id_of v) [post]))
                    (posts db)) db) pid).
  { intros pid Hne (x & Hx & E). exists x. split; [|exact E].
    simpl. apply filter_In. split; [exact Hx|]. simpl.
    destruct (post_id_of x =? post_id_of post) eqn:F; [lia|reflexivity]. }
  constructor; simpl.
  - intros p Hin. apply filter_In in Hin.
    exact (ref_posts db R p (proj1 Hin)).
  - intros c Hin. apply filter_In in Hin. destruct Hin as [Hin Hneg].
    destruct (ref_comments db R c Hin) as [Hu Hp]. split; [exact Hu|].
    apply Hkeep; [|exact Hp]. intros E.
    apply negb_true_iff in Hneg.
    assert (existsb (fun v => comment_id_of c =? comment_id_of v)
              (filter (fun c0 => comment_post_id c0 =? post_id_of post)
                 (comments db)) = true).
    { apply existsb_exists. exists c. split; [|lia].
      apply filter_In. split; [exact Hin|lia]. }
    congruence.
  - intros l Hin. apply filter_In in Hin. destruct Hin as [Hin Hneg].
    destruct (ref_likes db R l Hin) as [Hu Hp]. split; [exact Hu|].
    apply Hkeep; [|exact Hp]. intros E.
    apply negb_true_iff in Hneg.
    assert (existsb (fun v => like_id_of l =? like_id_of v)
              (filter (fun l0 => like_post_id l0 =? post_id_of post)
                 (likes db)) = true).
    { apply existsb_exists. exists l. split; [|lia].
      apply filter_In. split; [exact Hin|lia]. }
    congruence.
  - exact (ref_follows db R).
  - exact (ref_conversations db R).
  - exact (ref_messages db R).
Qed.

Lemma get_or_create_conversation_referential (db db1 : Db) (a b : Z)
    (conv : Conversation) :
  referential db -> has_user db a -> has_user db b ->
  get_or_create_conversation db a b = (db1, conv) ->
  referential db1
  /\ has_conversation db1 (conversation_id_of conv)
  /\ users db1 = users db /\ messages db1 = messages db
  /\ next_message db1 = next_message db.
Proof.
  intros R Ha Hb. unfold get_or_create_conversation.
  destruct (find_conversation db a b) as [c|] eqn:E; intros H;
    inversion H; subst.
  - split; [exact R|]. split; [|auto].
    unfold find_conversation in E. apply find_some in E.
    exists conv. tauto.
  - split; [now apply referential_add_conversation|].
    split; [|auto]. eexists. split; [|reflexivity].
    simpl. apply in_or_app. right. now left.
Qed.

Lemma attach_sender_username_total (db : Db) (ms : list Message) :
  (forall m, In m ms -> has_user db (message_sender_id m)) ->
  exists shown,
    attach_sender_username db ms = Some shown
    /\ map fst shown = ms
    /\ (forall m name, In (m, name) shown ->
          exists u, User_get db (message_sender_id m) = Some u
                    /\ username u = name).
Proof.
  induction ms as [|m ms IH]; intros H.
  - exists []. repeat split. intros m name [].
  - destruct (proj1 (has_user_get db _) (H m (or_introl eq_refl)))
      as (u & Eu).
    destruct IH as (shown & E & Emap & Hnames);
      [intros x Hx; apply H; now right|].
    exists ((m, username u) :: shown). cbn. rewrite Eu, E.
    split; [reflexivity|]. split; [now rewrite Emap|].
    intros x name [Hx|Hx]; [inversion Hx; subst; now exists u|].
    now apply Hnames.
Qed.

Ltac open_handlers :=
  unfold handle, index, register, login, logout, create_post, profile,
    follow_user, unfollow_user, edit_profile, edit_post, delete_post,
    add_comment, like_post, search, messages_view.

Section Werkzeug.
Variable generate_password_hash : string -> string -> string.
Variable check_password_hash : string -> string -> bool.

#[local] Abbreviation handle :=
  (handle generate_password_hash check_password_hash).
#[local] Abbreviation reachable :=
  (reachable generate_password_hash check_password_hash).
#[local] Abbreviation served :=
  (served generate_password_hash check_password_hash).

Lemma authentic_logged_in (db : Db) (s : Session) (uid : Z) :
  authentic db s -> s_user_id s = Some uid ->
  has_user db uid /\ exists name, s_username s = Some name.
Proof.
  intros [->|(u & Hin & ->)] E; [discriminate|].
  inversion E. split; [now exists u|]. now exists (username u).
Qed.

Lemma referential_step (now : Z) (s : Session) (req : Request) (db : Db) :
  authentic db s -> referential db ->
  referential (r_db (handle now s req db)).
Proof.
  intros Ha R.
  destruct req; cbn [Routes.handle];
    try (open_handlers; crack; cbn [r_db]; try exact R;
         repeat match goal with
           | H : s_user_id s = Some _ |- _ =>
               destruct (authentic_logged_in db s _ Ha H) as [? _]; clear H
           | H : Post_get _ _ = Some _ |- _ =>
               apply has_post_get in H
           | H : load_logged_in_user _ _ = Some ?u |- _ =>
               assert (has_user db (user_id_of u))
                 by (unfold load_logged_in_user in H; crack;
                     try discriminate;
                     apply has_user_get; eexists;
                     match goal with
                     | G : User_get _ ?z = Some u |- _ =>
                         rewrite (User_get_id _ _ _ G); exact G
                     end);
               clear H
           | H : User_by_username _ _ = Some ?u |- _ =>
               assert (has_user db (user_id_of u))
                 by (unfold User_by_username in H; apply find_some in H;
                     exists u; tauto);
               clear H
           end;
         first
           [ apply referential_add_user
           | apply referential_add_post
           | apply referential_follow
           | apply referential_unfollow
           | apply referential_update_profile
           | apply referential_edit_post
           | apply referential_delete_post_rows
           | apply referential_add_comment_row
           | apply referential_add_like
           | apply referential_set_likes_delete ];
         simpl; assumption).
  unfold conversation.
  destruct (s_user_id s) as [cur|] eqn:Es; [|exact R].
  destruct (User_get db other_user_id) as [other|] eqn:Eo; [|exact R].
  destruct (get_or_create_conversation db cur other_user_id)
    as [db1 conv] eqn:Eg.
  destruct (authentic_logged_in db s cur Ha Es) as [Hcur _].
  assert (Hother : has_user db other_user_id)
    by (apply has_user_get; now exists other).
  destruct (get_or_create_conversation_referential db db1 cur
              other_user_id conv R Hcur Hother Eg)
    as (R1 & Hc & Eu & _).
  assert (Hcur1 : has_user db1 cur)
    by (unfold has_user; now rewrite Eu).
  unfold show_conversation. crack; cbn [r_db]; try exact R1.
  apply referential_add_message; assumption.
Qed.

Lemma served_reachable (db : Db) : served db -> reachable db.
Proof.
  induction 1 as [|db now s req _ IH _];
    [apply reachable_empty|now apply reachable_step].
Qed.

Lemma served_referential_lemma (db : Db) : served db -> referential db.
Proof.
  induction 1 as [|db now s req _ IH Ha].
  - constructor; simpl; intros x [].
  - now apply referential_step.
Qed.

(** X16.  When every request comes with a session that the application
    has issued, every foreign key of the store points to a row: the
    author of each post, the author and the post of each comment and of
    each like, the two users of each follow edge and of each
    conversation, and the sender and the conversation of each message
    are in the store. *)
Theorem served_referential (db : Db) : served db -> referential db.
Proof. apply served_referential_lemma. Qed.


End Werkzeug.

(** Every request of the run of [Demo] comes with the session of a
    registered user, or with none. *)
Lemma served_demo_db : served demo_hash demo_check demo_db.
Proof.
  unfold demo_db, demo_trace. cbn [run].
  repeat (apply served_step;
          [|first [ now left
                  | right; exists alice; split; [vm_compute; auto|reflexivity]
                  | right; exists bob; split; [vm_compute; auto|reflexivity]
                  | right; exists carol; split;
                    [vm_compute; auto|reflexivity] ]]).
  apply served_empty.
Qed.

Lemma served_referential_witness : referential demo_db.
Proof.
  apply (served_referential demo_hash demo_check demo_db).
  apply served_demo_db.
Defined.

Lemma served_busy_db : served demo_hash demo_check busy_db.
Proof.
  unfold busy_db. cbn [run].
  do 3 (apply served_step;
        [|right; exists alice; split; [vm_compute; auto|reflexivity]]).
  exact served_demo_db.
Qed.

Lemma served_chat_db : served demo_hash demo_check chat_db.
Proof.
  unfold chat_db. cbn [run].
  apply served_step;
    [|right; exists carol; split; [vm_compute; auto|reflexivity]].
  apply served_step;
    [|right; exists bob; split; [vm_compute; auto|reflexivity]].
  apply served_step;
    [|right; exists alice; split; [vm_compute; auto|reflexivity]].
  exact served_busy_db.
Qed.


End References.

(** ** Messages *)

Module Messaging.
Import Model Query Http App Routes Props Demo Integrity.
Import ListFacts Steps Invariants Keys References.

Lemma message_asc_total (m n : Message) :
  message_created_at_asc m n = false -> message_created_at_asc n m = true.
Proof. unfold message_created_at_asc. lia. Qed.

Lemma message_asc_trans (m n o : Message) :
  message_created_at_asc m n = true -> message_created_at_asc n o = true ->
  message_created_at_asc m o = true.
Proof. unfold message_created_at_asc. lia. Qed.

Lemma conversation_messages_spec (db : Db) (conv : Conversation) :
  (forall m, In m (conversation_messages db conv)
             <-> In m (messages db)
                 /\ message_conversation_id m = conversation_id_of conv)
  /\ StronglySorted (fun m n => message_created_at m <= message_created_at n)
       (conversation_messages db conv).
Proof.
  unfold conversation_messages. split.
  - intros m. rewrite (order_by_in message_created_at_asc), filter_In,
      Z.eqb_eq. reflexivity.
  - pose proof (order_by_sorted message_created_at_asc message_asc_total
                  message_asc_trans
                  (filter (fun m => message_conversation_id m
                                    =? conversation_id_of conv)
                     (messages db))) as H.
    induction H as [|m l Hs IH Hall]; constructor; [exact IH|].
    eapply Forall_impl; [|exact Hall].
    intros n Hn. unfold message_created_at_asc in Hn. lia.
Qed.

Lemma show_conversation_total (db : Db) (s : Session) (fl : list Flash)
    (conv : Conversation) (other : User) (cur : Z) :
  referential db ->
  exists shown,
    show_conversation db s fl conv other cur
    = mkResult db s fl (render_conversation conv other shown cur)
    /\ map fst shown = conversation_messages db conv
    /\ (forall m name, In (m, name) shown ->
          exists u, User_get db (message_sender_id m) = Some u
                    /\ username u = name).
Proof.
  intros R. unfold show_conversation.
  fold (conversation_messages db conv).
  destruct (attach_sender_username_total db (conversation_messages db conv))
    as (shown & E & Emap & Hnames).
  - intros m Hm. apply (proj1 (conversation_messages_spec db conv)) in Hm.
    exact (proj1 (ref_messages db R m (proj1 Hm))).
  - exists shown. rewrite E. auto.
Qed.

Section Werkzeug.
Variable generate_password_hash : string -> string -> string.
Variable check_password_hash : string -> string -> bool.

#[local] Abbreviation handle :=
  (handle generate_password_hash check_password_hash).
#[local] Abbreviation served :=
  (served generate_password_hash check_password_hash).

(** X18.  When every request has come with an issued session, a
    logged-in user who opens the conversation with a user of the store,
    when the store has a row for the two, is shown that row, that user,
    and exactly the messages of that conversation, each once, ordered by
    their time of creation, oldest first, each with the name of a user
    whose key is the sender's; nothing is written. *)
Theorem conversation_view
    (now : Z) (s : Session) (cur : Z) (other : User)
    (conv : Conversation) (db : Db) :
  served db -> s_user_id s = Some cur -> In other (users db) ->
  In conv (conversations db) -> between conv cur (user_id_of other) ->
  exists shown,
    conversation now s (user_id_of other) None db
    = mkResult db s [] (render_conversation conv other shown cur)
    /\ (forall m, In m (map fst shown)
                  <-> In m (messages db)
                      /\ message_conversation_id m = conversation_id_of conv)
    /\ Permutation
         (filter (fun m => message_conversation_id m
                           =? conversation_id_of conv) (messages db))
         (map fst shown)
    /\ StronglySorted
         (fun m n => message_created_at m <= message_created_at n)
         (map fst shown)
    /\ (forall m name, In (m, name) shown ->
          exists u, In u (users db)
                    /\ user_id_of u = message_sender_id m
                    /\ username u = name).
Proof.
  intros Hsv Hs Ho Hin Hbetween.
  pose proof (served_referential_lemma _ _ db Hsv) as R.
  pose proof (served_reachable _ _ db Hsv) as Hr.
  pose proof (proj1 (keyed_users db (reachable_keyed _ _ db Hr))) as Hnd.
  pose proof (find_by_unique_id user_id_of (users db) other Hnd Ho) as Eo.
  fold (User_get db (user_id_of other)) in Eo.
  pose proof (Conversations.find_conversation_row db cur (user_id_of other)
                conv
                (wf_conversations db (reachable_well_formed _ _ db Hr)
                   cur (user_id_of other)) Hin Hbetween) as Hc.
  unfold conversation, get_or_create_conversation. rewrite Hs, Eo, Hc.
  destruct (show_conversation_total db s [] conv other cur R)
    as (shown & E & Emap & Hnames).
  exists shown. split; [exact E|]. rewrite Emap.
  destruct (conversation_messages_spec db conv) as [Hmem Hsorted].
  split; [exact Hmem|]. split; [apply order_by_perm|].
  split; [exact Hsorted|].
  intros m name Hm. destruct (Hnames m name Hm) as (u & Eu & En).
  exists u. unfold User_get in Eu. apply find_some in Eu.
  split; [tauto|]. split; [lia|exact En].
Qed.

(** X19.  When every request has come with an issued session: after a
    user [a] has posted a text that is not empty to the conversation
    with a user [b], exactly one message is appended, with the text, the
    sender [a] and the time of the post, in the one conversation of the
    store between [a] and [b]; and [b] opening the conversation with
    [a] is shown that same conversation and in it that message with the
    name of [a]; opening it writes nothing. *)
Theorem message_reaches_recipient
    (now now' : Z) (a b : User) (text : string) (db : Db) :
  served db -> In a (users db) -> In b (users db) -> text <> "" ->
  let db1 :=
    r_db (conversation now (session_of a) (user_id_of b) (Some text) db) in
  exists conv shown m,
    conversation now' (session_of b) (user_id_of a) None db1
    = mkResult db1 (session_of b) []
        (render_conversation conv a shown (user_id_of b))
    /\ In (m, username a) shown
    /\ message_text m = text /\ message_sender_id m = user_id_of a
    /\ message_created_at m = now
    /\ message_conversation_id m = conversation_id_of conv
    /\ messages db1 = messages db ++ [m]
    /\ In conv (conversations db1)
    /\ between conv (user_id_of a) (user_id_of b)
    /\ (forall c, In c (conversations db1) ->
                  between c (user_id_of a) (user_id_of b) -> c = conv)
    /\ (forall c, In c (conversations db) ->
                  between c (user_id_of a) (user_id_of b) ->
                  c = conv /\ conversations db1 = conversations db).
Proof.
  intros Hsv Ha Hb Htext. cbv zeta.
  pose proof (served_reachable _ _ db Hsv) as Hr.
  pose proof (proj1 (keyed_users db (reachable_keyed _ _ db Hr))) as Hnd.
  pose proof (find_by_unique_id user_id_of (users db) a Hnd Ha) as Ea.
  pose proof (find_by_unique_id user_id_of (users db) b Hnd Hb) as Eb.
  fold (User_get db (user_id_of a)) in Ea.
  fold (User_get db (user_id_of b)) in Eb.
  pose proof (wf_conversations db (reachable_well_formed _ _ db Hr)
                (user_id_of a) (user_id_of b)) as Hle.
  assert (Hauth : authentic db (session_of a)) by (right; now exists a).
  pose proof (served_step _ _ db now (session_of a)
                (ANY_conversation (user_id_of b) (Some text)) Hsv Hauth)
    as Hsv1.
  cbn [Routes.handle] in Hsv1.
  destruct (Texts.get_or_create_conversation_messages db (user_id_of a)
              (user_id_of b)) as [Emsg Enext].
  destruct (get_or_create_conversation db (user_id_of a) (user_id_of b))
    as [dbc conv] eqn:Eg.
  cbn [fst] in Emsg, Enext.
  set (m := mkMessage (next_message dbc) (conversation_id_of conv)
              (user_id_of a) text now).
  assert (E1 : r_db (conversation now (session_of a) (user_id_of b)
                       (Some text) db)
               = add_message m dbc).
  { unfold conversation. cbn [s_user_id session_of]. rewrite Eb, Eg.
    destruct text; [contradiction|reflexivity]. }
  rewrite E1 in *.
  pose proof (served_referential_lemma _ _ _ Hsv1) as R1.
  destruct (Conversations.get_or_create_conversation_row _ _ _ _ _ Eg)
    as (Hconv & Hbetween & Hold & Hnew).
  pose proof (Conversations.get_or_create_conversation_single _ _ _ _ _
                Hle Eg) as Hsingle.
  assert (Eusers : users (add_message m dbc) = users db).
  { unfold get_or_create_conversation in Eg.
    destruct (find_conversation db (user_id_of a) (user_id_of b));
      inversion Eg; reflexivity. }
  assert (Ea1 : User_get (add_message m dbc) (user_id_of a) = Some a)
    by (unfold User_get; rewrite Eusers; exact Ea).
  pose proof (Conversations.get_or_create_conversation_found _ _ _ _ _ Eg)
    as Efound.
  assert (Ec1 : find_conversation (add_message m dbc) (user_id_of b)
                  (user_id_of a) = Some conv).
  { rewrite Conversations.find_conversation_sym. exact Efound. }
  unfold conversation, get_or_create_conversation.
  cbn [s_user_id session_of]. rewrite Ea1, Ec1.
  destruct (show_conversation_total (add_message m dbc) (session_of b) []
              conv a (user_id_of b) R1) as (shown & E & Emap & Hnames).
  exists conv, shown, m. split; [exact E|].
  split; [|split; [reflexivity|split; [reflexivity|split; [reflexivity|
    split; [reflexivity|split; [|split; [exact Hconv|split;
      [exact Hbetween|split]]]]]]]].
  - assert (Hm : In m (map fst shown)).
    { rewrite Emap.
      apply (proj1 (conversation_messages_spec (add_message m dbc) conv)).
      split; [|reflexivity]. simpl. apply in_or_app. right. now left. }
    apply in_map_iff in Hm. destruct Hm as ([m' name] & Em & Hin).
    simpl in Em. subst m'.
    destruct (Hnames m name Hin) as (u & Eu & En).
    cbn [message_sender_id m] in Eu. rewrite Ea1 in Eu.
    inversion Eu; subst u. rewrite En. exact Hin.
  - cbn [messages add_message]. now rewrite Emsg.
  - intros c Hc Hcb. cbn [conversations add_message] in Hc.
    assert (Hrow : In c (conversation_rows dbc (user_id_of a)
                           (user_id_of b))).
    { apply filter_In. split; [exact Hc|].
      now apply Conversations.between_match. }
    rewrite Hsingle in Hrow. destruct Hrow as [<-|[]]. reflexivity.
  - intros c Hc Hcb.
    assert (Hrow : In c (conversation_rows db (user_id_of a)
                           (user_id_of b))).
    { apply filter_In. split; [exact Hc|].
      now apply Conversations.between_match. }
    destruct Hold as [-> Hcin];
      [intros Hnil; rewrite Hnil in Hrow; contradiction|].
    split; [|reflexivity].
    rewrite Hsingle in Hrow. destruct Hrow as [<-|[]]. reflexivity.
Qed.

End Werkzeug.

(** The three messages of alice and bob in [chat_db], by time: bob's
    'Hello alice' was stored last and is shown second; carol's message
    to alice is in another conversation. *)
Example chat_db_bob_shown :
  r_resp (conversation 40 (session_of bob) 1 None chat_db)
  = render_conversation (mkConversation 1 1 2) alice
      [ (mkMessage 1 1 1 "Hello bob" 22, "alice")
      ; (mkMessage 3 1 2 "Hello alice" 25, "bob")
      ; (mkMessage 2 1 1 "See you at ten" 30, "alice") ] 2.
Proof. vm_compute. reflexivity. Qed.

(** Carol's conversation with alice is the second row of the table;
    alice is shown it, not the first. *)
Example chat_db_alice_shown :
  conversations chat_db = [mkConversation 1 1 2; mkConversation 2 3 1]
  /\ r_resp (conversation 41 (session_of alice) 3 None chat_db)
     = render_conversation (mkConversation 2 3 1) carol
         [ (mkMessage 4 2 3 "Carol here" 26, "carol") ] 1.
Proof. split; vm_compute; reflexivity. Qed.

Lemma conversation_view_witness :
  (exists shown,
    conversation 40 (session_of bob) (user_id_of alice) None chat_db
    = mkResult chat_db (session_of bob) []
        (render_conversation (mkConversation 1 1 2) alice shown 2)
    /\ (forall m, In m (map fst shown)
                  <-> In m (messages chat_db)
                      /\ message_conversation_id m = 1)
    /\ Permutation
         (filter (fun m => message_conversation_id m =? 1)
            (messages chat_db))
         (map fst shown)
    /\ StronglySorted
         (fun m n => message_created_at m <= message_created_at n)
         (map fst shown)
    /\ (forall m name, In (m, name) shown ->
          exists u, In u (users chat_db)
                    /\ user_id_of u = message_sender_id m
                    /\ username u = name))
  /\ (exists shown,
    conversation 41 (session_of alice) (user_id_of carol) None chat_db
    = mkResult chat_db (session_of alice) []
        (render_conversation (mkConversation 2 3 1) carol shown 1)
    /\ (forall m, In m (map fst shown)
                  <-> In m (messages chat_db)
                      /\ message_conversation_id m = 2)
    /\ Permutation
         (filter (fun m => message_conversation_id m =? 2)
            (messages chat_db))
         (map fst shown)
    /\ StronglySorted
         (fun m n => message_created_at m <= message_created_at n)
         (map fst shown)
    /\ (forall m name, In (m, name) shown ->
          exists u, In u (users chat_db)
                    /\ user_id_of u = message_sender_id m
                    /\ username u = name)).
Proof.
  split.
  - apply (conversation_view demo_hash demo_check 40 (session_of bob) 2
             alice (mkConversation 1 1 2) chat_db).
    + apply served_chat_db.
    + reflexivity.
    + vm_compute. auto.
    + vm_compute. auto.
    + right. split; reflexivity.
  - apply (conversation_view demo_hash demo_check 41 (session_of alice) 1
             carol (mkConversation 2 3 1) chat_db).
    + apply served_chat_db.
    + reflexivity.
    + vm_compute. auto.
    + vm_compute. auto.
    + right. split; reflexivity.
Defined.

Lemma message_reaches_recipient_witness :
  exists conv shown m,
    conversation 97 (session_of bob) (user_id_of alice) None
      (r_db (conversation 96 (session_of alice) (user_id_of bob)
               (Some "hello bob") chat_db))
    = mkResult
        (r_db (conversation 96 (session_of alice) (user_id_of bob)
                 (Some "hello bob") chat_db))
        (session_of bob) []
        (render_conversation conv alice shown (user_id_of bob))
    /\ In (m, username alice) shown
    /\ message_text m = "hello bob"
    /\ message_sender_id m = user_id_of alice
    /\ message_created_at m = 96
    /\ message_conversation_id m = conversation_id_of conv
    /\ messages
         (r_db (conversation 96 (session_of alice) (user_id_of bob)
                  (Some "hello bob") chat_db))
       = messages chat_db ++ [m]
    /\ In conv
         (conversations
            (r_db (conversation 96 (session_of alice) (user_id_of bob)
                     (Some "hello bob") chat_db)))
    /\ between conv (user_id_of alice) (user_id_of bob)
    /\ (forall c,
          In c (conversations
                  (r_db (conversation 96 (session_of alice) (user_id_of bob)
                           (Some "hello bob") chat_db))) ->
          between c (user_id_of alice) (user_id_of bob) -> c = conv)
    /\ (forall c, In c (conversations chat_db) ->
          between c (user_id_of alice) (user_id_of bob) ->
          c = conv
          /\ conversations
               (r_db (conversation 96 (session_of alice) (user_id_of bob)
                        (Some "hello bob") chat_db))
             = conversations chat_db).
Proof.
  apply (message_reaches_recipient demo_hash demo_check 96 97 alice bob
           "hello bob" chat_db).
  - apply served_chat_db.
  - vm_compute. auto.
  - vm_compute. auto.
  - discriminate.
Defined.

End Messaging.

(** ** What stays: comments and likes *)

Module Kept.
Import Model Query Http App Routes Props Demo Integrity.
Import ListFacts Steps Invariants Keys Posts.

Section Werkzeug.
Variable generate_password_hash : string -> string -> string.
Variable check_password_hash : string -> string -> bool.

#[local] Abbreviation handle :=
  (handle generate_password_hash check_password_hash).
#[local] Abbreviation reachable :=
  (reachable generate_password_hash check_password_hash).

(** X20.  In a reachable store a comment stays as it is through every
    request but the deletion of its post, and a like stays through every
    request but the deletion of its post and the toggle of its own user
    on its post. *)
Theorem comments_and_likes_kept
    (now : Z) (s : Session) (req : Request) (db : Db) :
  reachable db ->
  (forall c, In c (comments db) ->
     req <> POST_delete_post (comment_post_id c) ->
     In c (comments (r_db (handle now s req db))))
  /\ (forall l, In l (likes db) ->
        req <> POST_delete_post (like_post_id l) ->
        (req = POST_like_post (like_post_id l) ->
         s_user_id s <> Some (like_user_id l)) ->
        In l (likes (r_db (handle now s req db)))).
Proof.
  intros Hr. pose proof (reachable_keyed _ _ db Hr) as Hk. split.
  - intros c Hin Hnot.
    destruct req; open_routes; crack; simpl; try assumption;
      try (apply in_or_app; now left).
    all: apply (delete_by_key_in comment_id_of _ (comments db) c
                  (proj1 (keyed_comments db Hk)));
      [intros v Hv; now apply filter_In in Hv|].
    all: split; [exact Hin|]; intros Hv; apply filter_In in Hv;
      destruct Hv as [_ Hv]; apply Z.eqb_eq in Hv;
      match goal with H : Post_get _ _ = Some _ |- _ =>
        apply Post_get_id in H; apply Hnot; congruence end.
  - intros l Hin Hnot Htoggle.
    destruct req; open_routes; crack; simpl; try assumption;
      try (apply in_or_app; now left).
    + apply (delete_by_key_in like_id_of _ (likes db) l
               (proj1 (keyed_likes db Hk)));
        [intros v Hv; now apply filter_In in Hv|].
      split; [exact Hin|]. intros Hv. apply filter_In in Hv.
      destruct Hv as [_ Hv]. apply Z.eqb_eq in Hv.
      match goal with H : Post_get _ _ = Some _ |- _ =>
        apply Post_get_id in H; apply Hnot; congruence end.
    + apply (delete_by_key_in like_id_of _ (likes db) l
               (proj1 (keyed_likes db Hk)));
        [intros v Hv; now apply filter_In in Hv|].
      split; [exact Hin|]. intros Hv. apply filter_In in Hv.
      destruct Hv as [_ Hv]. apply Z.eqb_eq in Hv.
      match goal with H : Post_get _ _ = Some _ |- _ =>
        apply Post_get_id in H; apply Hnot; congruence end.
    + match goal with
      | H : existing_like _ _ _ = Some ?l0,
        Hp : Post_get _ _ = Some _ |- _ =>
          unfold existing_like in H; apply find_some in H;
          destruct H as [Hl0 Hm]; apply Post_get_id in Hp;
          apply (delete_by_key_in like_id_of [l0] (likes db) l
                   (proj1 (keyed_likes db Hk)));
          [intros v [<-|[]]; exact Hl0|];
          split; [exact Hin|]; intros [<-|[]];
          apply andb_true_iff in Hm; destruct Hm as [Hu Hpid];
          apply Z.eqb_eq in Hu, Hpid;
          apply Htoggle; [congruence|]; congruence
      end.
Qed.

End Werkzeug.

Lemma comments_and_likes_kept_witness :
  In (mkComment 1 "Nice cat" 1 1 20)
    (comments (r_db (handle demo_hash demo_check 30 (session_of carol)
                       (POST_like_post 1) busy_db)))
  /\ In (mkLike 1 1 1 21)
       (likes (r_db (handle demo_hash demo_check 30 (session_of carol)
                       (POST_like_post 1) busy_db))).
Proof.
  destruct (comments_and_likes_kept demo_hash demo_check 30
              (session_of carol) (POST_like_post 1) busy_db) as [Hc Hl].
  - apply reachable_run. apply reachable_run. constructor.
  - split.
    + apply Hc; [vm_compute; auto|discriminate].
    + apply Hl; [vm_compute; auto|discriminate|discriminate].
Defined.

End Kept.

(** ** The list of conversations *)

Module Inbox.
Import Model Query Http App Routes Props Demo Integrity.
Import ListFacts Steps Invariants Keys References.

Section Werkzeug.
Variable generate_password_hash : string -> string -> string.
Variable check_password_hash : string -> string -> bool.

#[local] Abbreviation served :=
  (served generate_password_hash check_password_hash).

(** X21.  When every request has come with an issued session, the page
    of messages of a logged-in user lists exactly the conversations in
    which the user is one of the two participants, each with the row of
    the other participant (of the user again, in a conversation of the
    user with the user). *)
Theorem messages_view_lists_own
    (s : Session) (uid : Z) (db : Db) :
  served db -> s_user_id s = Some uid ->
  exists listed,
    messages_view s db = mkResult db s [] (render_messages listed)
    /\ map fst listed
       = filter (fun c => (user1_id c =? uid) || (user2_id c =? uid))
           (conversations db)
    /\ (forall c, In c (map fst listed)
                  <-> In c (conversations db)
                      /\ (user1_id c = uid \/ user2_id c = uid))
    /\ (forall c o, In (c, o) listed ->
          exists u, o = Some u /\ In u (users db)
                    /\ ((user1_id c = uid /\ user_id_of u = user2_id c)
                        \/ (user1_id c <> uid /\ user2_id c = uid
                            /\ user_id_of u = user1_id c))).
Proof.
  intros Hsv Hs. pose proof (served_referential_lemma _ _ db Hsv) as R.
  unfold messages_view. rewrite Hs. eexists. split; [reflexivity|].
  split; [|split].
  - rewrite map_map. cbn [fst]. apply map_id.
  - intros c. rewrite map_map. cbn [fst]. rewrite map_id, filter_In,
      orb_true_iff, !Z.eqb_eq. reflexivity.
  - intros c o Hin. apply in_map_iff in Hin.
    destruct Hin as (c' & E & Hc). inversion E; subst c' o. clear E.
    apply filter_In in Hc. destruct Hc as [Hc Hpart].
    destruct (ref_conversations db R c Hc) as [H1 H2].
    destruct (user1_id c =? uid) eqn:E1.
    + apply has_user_get in H2. destruct H2 as (u & Eu). exists u.
      split; [exact Eu|]. unfold User_get in Eu. apply find_some in Eu.
      split; [tauto|]. left. lia.
    + apply has_user_get in H1. destruct H1 as (u & Eu). exists u.
      split; [exact Eu|]. unfold User_get in Eu. apply find_some in Eu.
      split; [tauto|]. right. simpl in Hpart. lia.
Qed.

End Werkzeug.

Lemma messages_view_lists_own_witness :
  exists listed,
    messages_view (session_of bob) busy_db
    = mkResult busy_db (session_of bob) [] (render_messages listed)
    /\ map fst listed
       = filter (fun c => (user1_id c =? 2) || (user2_id c =? 2))
           (conversations busy_db)
    /\ (forall c, In c (map fst listed)
                  <-> In c (conversations busy_db)
                      /\ (user1_id c = 2 \/ user2_id c = 2))
    /\ (forall c o, In (c, o) listed ->
          exists u, o = Some u /\ In u (users busy_db)
                    /\ ((user1_id c = 2 /\ user_id_of u = user2_id c)
                        \/ (user1_id c <> 2 /\ user2_id c = 2
                            /\ user_id_of u = user1_id c))).
Proof.
  apply (messages_view_lists_own demo_hash demo_check (session_of bob) 2
           busy_db served_busy_db eq_refl).
Defined.

End Inbox.
